(** * neutronclient: router commands and the shell dispatcher

    A shallow embedding of [neutronclient/neutron/v2_0/router.py] and of the
    dispatcher part of [neutronclient/shell.py].

    Python values are an inductive type whose dictionaries are finite maps
    with string keys; a Python computation that can raise and that talks to
    the outside world is a pair of the events it emitted and of either its
    value or the exception that ended it. *)

From Stdlib Require Import ZArith Ascii String.
From stdpp Require Import gmap strings list fin_maps.

(** ** Python values *)

Module Py.

(** The JSON-like fragment of Python's values that request bodies, parsed
  arguments and response payloads are made of. *)
#[warnings="-register-all"]
Inductive value : Type :=
| VNone : value
| VBool : bool → value
| VInt : Z → value
| VStr : string → value
| VList : list value → value
| VDict : gmap string value → value.

(** Python's truth test ([if x:], [not x], [x and y or z]). *)
Definition truthy (v : value) : bool :=
match v with
| VNone => false
| VBool b => b
| VInt n => negb (n =? 0)%Z
| VStr s => negb (String.eqb s "")
| VList l => match l with [] => false | _ => true end
| VDict d => negb (bool_decide (d = ∅))
end.

(** The exceptions the two modules raise, catch or let through.  Only
  [KeyboardInterrupt] and [SystemExit] are outside [Exception]. *)
Inductive exn : Type :=
| KeyboardInterrupt : exn
| SystemExit : value → exn
| CommandError : string → exn
| NotFound : string → exn
| AmbiguousReference : list string → exn
| ClientError : Z → string → exn
| KeyError : string → exn
| TypeError : exn
| AttributeError : string → exn
| NotImplementedError : exn
| OtherException : string → exn.

(** [isinstance(e, Exception)] *)
Definition is_Exception (e : exn) : bool :=
match e with
| KeyboardInterrupt | SystemExit _ => false
| _ => true
end.

Inductive result (A : Type) : Type :=
| Ok : A → result A
| Raise : exn → result A.
Arguments Ok {A} _.
Arguments Raise {A} _.

(** [obj[key]] for a string key: only a dict is indexable by a string. *)
Definition getitem (obj : value) (key : string) : result value :=
match obj with
| VDict d =>
    match d !! key with
    | Some v => Ok v
    | None => Raise (KeyError key)
    end
| _ => Raise TypeError
end.

End Py.
Import Py.

(** ** Effects

    What a command does to the outside world is recorded as a list of
    events, in the order the code performs them.  Debug logging is not
    recorded. *)

(** The calls on the API client that the router commands make.  The first
    one is the collection query filtered by display name that name
    resolution performs. *)
Inductive api_call : Type :=
  | list_resources (collection name : string)
  | add_interface_router (router_id : string) (body : value)
  | remove_interface_router (router_id : string) (body : value)
  | remove_gateway_router (router_id : string).

Inductive stream : Type := stdout | stderr.

Inductive event : Type :=
  | Request : api_call → event
  | Print : stream → string → event
  | PrintException : stream → exn → event
  | Authenticate : event
  | ParseKnownArgs : list string → event
  | RunCommand : gmap string value → list string → event.

(** A computation: the events emitted, then a value or an exception. *)
Definition M (A : Type) : Type := (list event * result A)%type.

Definition ret {A} (a : A) : M A := ([], Ok a).
Definition raise {A} (e : exn) : M A := ([], Raise e).
Definition lift {A} (r : result A) : M A := ([], r).
Definition emit (ev : event) : M unit := ([ev], Ok tt).

Definition bind {A B} (m : M A) (k : A → M B) : M B :=
  match m with
  | (t, Ok a) => let '(t', r) := k a in (t ++ t', r)
  | (t, Raise e) => (t, Raise e)
  end.

Notation "x <- m ;; k" := (bind m (λ x, k))
  (at level 100, m at next level, right associativity, only parsing).
Notation "m ;;; k" := (bind m (λ _, k))
  (at level 100, right associativity, only parsing).

(** [try: m except ...]: the handler says which exceptions the except
    clauses catch and what their bodies do. *)
Definition try_except {A} (m : M A) (handler : exn → option (M A)) : M A :=
  match m with
  | (t, Raise e) =>
      match handler e with
      | Some h => let '(t', r) := h in (t ++ t', r)
      | None => (t, Raise e)
      end
  | _ => m
  end.

(** ** Strings

    [sep in s] and [s.split(sep, 1)] for a one-character separator. *)

Fixpoint contains_char (sep : Ascii.ascii) (s : string) : bool :=
  match s with
  | EmptyString => false
  | String c rest => if Ascii.eqb c sep then true else contains_char sep rest
  end.

Fixpoint split1 (sep : Ascii.ascii) (s : string) : list string :=
  match s with
  | EmptyString => [EmptyString]
  | String c rest =>
      if Ascii.eqb c sep then [EmptyString; rest]
      else match split1 sep rest with
           | hd :: tl => String c hd :: tl
           | [] => [String c EmptyString]
           end
  end.

(** ** The API client

    The client object a command obtains from [get_client()].  The remote
    service is whatever answers these calls; the resource records it holds
    are what the collection query of name resolution filters. *)

Record resource_record : Type := {
  record_id : string;
  record_name : string;
}.

Record neutron_client : Type := {
  collection : string → list resource_record;
  answer_add_interface_router : string → value → result value;
  answer_remove_interface_router : string → value → result value;
  answer_remove_gateway_router : string → result value;
}.

Definition client_add_interface_router
    (c : neutron_client) (router_id : string) (body : value) : M value :=
  emit (Request (add_interface_router router_id body)) ;;;
  lift (answer_add_interface_router c router_id body).

Definition client_remove_interface_router
    (c : neutron_client) (router_id : string) (body : value) : M value :=
  emit (Request (remove_interface_router router_id body)) ;;;
  lift (answer_remove_interface_router c router_id body).

Definition client_remove_gateway_router
    (c : neutron_client) (router_id : string) : M value :=
  emit (Request (remove_gateway_router router_id)) ;;;
  lift (answer_remove_gateway_router c router_id).

(** ** router.py: the action commands and the column formatter *)

(** The arguments [RouterInterfaceCommand.get_parser] declares: two
    positionals of the default (string) type. *)
Record interface_args : Type := {
  ia_router : string;
  ia_interface : string;
}.

(** The argument [RemoveGatewayRouter.get_parser] declares. *)
Record gateway_clear_args : Type := {
  gc_router : string;
}.

(** The two methods the base class leaves to its subclasses. *)
Class RouterInterfaceCommand : Type := {
  call_api : neutron_client → string → value → M value;
  success_message : string → value → result string;
}.

Section Router.

(** Python's [str()], which [%s] applies to its operand. *)
Variable py_str : value → string.

(** [oslo_serialization.jsonutils.dumps]. *)
Variable dumps : value → string.

(** [neutronV20.find_resourceid_by_name_or_id], defined outside this
    module. *)
Variable find_resourceid_by_name_or_id :
  neutron_client → string → string → M string.

Definition format_external_gateway_info (router : value) : result string :=
  match getitem router "external_gateway_info" with
  | Ok v => Ok (dumps v)
  | Raise e =>
      match e with
      | TypeError | KeyError _ => Ok ""
      | _ => Raise e
      end
  end.

Definition RouterInterfaceCommand_base : RouterInterfaceCommand := {|
  call_api := λ _ _ _, raise NotImplementedError;
  success_message := λ _ _, Raise NotImplementedError;
|}.

Definition AddInterfaceRouter : RouterInterfaceCommand := {|
  call_api := λ client router_id body,
    client_add_interface_router client router_id body;
  success_message := λ router_id portinfo,
    match getitem portinfo "port_id" with
    | Ok port =>
        Ok ("Added interface " +:+ py_str port +:+ " to router "
            +:+ router_id +:+ ".")
    | Raise e => Raise e
    end;
|}.

Definition RemoveInterfaceRouter : RouterInterfaceCommand := {|
  call_api := λ client router_id body,
    client_remove_interface_router client router_id body;
  success_message := λ router_id portinfo,
    Ok ("Removed interface from router " +:+ router_id +:+ ".");
|}.

(** [RouterInterfaceCommand.run].  The [CommandError] of the first branch
    is built and dropped: the source has no [raise] in front of it. *)
Definition RouterInterfaceCommand_run (self : RouterInterfaceCommand)
    (client : neutron_client) (parsed_args : interface_args) : M value :=
  rv <- (if contains_char "="%char (ia_interface parsed_args) then
           match split1 "="%char (ia_interface parsed_args) with
           | [resource; value] =>
               if bool_decide (resource ∉ ["subnet"; "port"]) then
                 let _unraised := CommandError
                   "You must specify either subnet or port for INTERFACE parameter." in
                 ret (resource, value)
               else ret (resource, value)
           | _ => raise (OtherException "ValueError")
           end
         else ret ("subnet", ia_interface parsed_args)) ;;
  let '(resource, value) := rv in
  _router_id <- find_resourceid_by_name_or_id
                  client "router" (ia_router parsed_args) ;;
  _interface_id <- find_resourceid_by_name_or_id
                     client resource value ;;
  let body := VDict {[ resource +:+ "_id" := VStr _interface_id ]} in
  portinfo <- call_api client _router_id body ;;
  message <- lift (success_message (ia_router parsed_args) portinfo) ;;
  emit (Print stdout message) ;;;
  ret VNone.

(** [RemoveGatewayRouter.run] *)
Definition RemoveGatewayRouter_run
    (client : neutron_client) (parsed_args : gateway_clear_args) : M value :=
  _router_id <- find_resourceid_by_name_or_id
                  client "router" (gc_router parsed_args) ;;
  client_remove_gateway_router client _router_id ;;;
  emit (Print stdout ("Removed gateway from router " +:+ gc_router parsed_args)) ;;;
  ret VNone.

End Router.

(** ** argparse, as far as the router commands use it

    An argument is what one [add_argument] call declares.  Parsing has two
    stages: the command line is cut into invocations of declared arguments
    (an option spelled out, abbreviated, or with its value attached by [=];
    one value per valued option), and the invocations are applied to the
    namespace in order. *)

Inductive action : Type := store | store_true | store_false | append.

Record argument : Type := {
  option_strings : list string;      (* empty for a positional *)
  dest : string;
  act : action;
  default : option value;            (* [None] is [argparse.SUPPRESS] *)
  type_ : string → option value;     (* [None]: the conversion rejects it *)
  group : option nat;                (* its mutually exclusive group *)
}.

(** [str], the default [type=]. *)
Definition type_str (s : string) : option value := Some (VStr s).

Definition positional (dest : string) : argument :=
  {| option_strings := []; dest := dest; act := store;
     default := Some VNone; type_ := type_str; group := None |}.

(** [add_argument(names..., dest=dest, action=act)] with the default that
    argparse gives the action. *)
Definition optional (names : list string) (dest : string) (act : action) : argument :=
  {| option_strings := names; dest := dest; act := act;
     default := Some match act with
                     | store | append => VNone
                     | store_true => VBool false
                     | store_false => VBool true
                     end;
     type_ := type_str; group := None |}.

(** The parsed arguments: a namespace of attributes. *)
Definition hasattr (ns : gmap string value) (name : string) : bool :=
  bool_decide (is_Some (ns !! name)).

Definition getattr (ns : gmap string value) (name : string) : result value :=
  match ns !! name with
  | Some v => Ok v
  | None => Raise (AttributeError name)
  end.

(** [parser.error]: usage on stderr, then [sys.exit(2)]. *)
Definition usage_error {A} : result A := Raise (SystemExit (VInt 2)).

(** The defaults set before any argument is looked at; for a destination
    declared twice the first declaration decides. *)
Definition initial_namespace (parser : list argument) : gmap string value :=
  foldl (λ ns a,
           match default a with
           | Some v => if hasattr ns (dest a) then ns else <[dest a := v]> ns
           | None => ns
           end) ∅ parser.

(** Two different arguments of one mutually exclusive group. *)
Definition conflicting (parser : list argument) (i j : nat) : bool :=
  match parser !! i, parser !! j with
  | Some a, Some b =>
      bool_decide (i ≠ j) &&
      match group a, group b with
      | Some g, Some h => bool_decide (g = h)
      | _, _ => false
      end
  | _, _ => false
  end.

(** One invocation: the index of the declared argument and the string given
    to it, if it takes one.  The state is the namespace and the arguments
    seen so far. *)
Definition take_action (parser : list argument)
    (st : gmap string value * list nat) (inv : nat * option string)
    : result (gmap string value * list nat) :=
  let '(ns, seen) := st in
  let '(i, raw) := inv in
  match parser !! i with
  | None => usage_error
  | Some a =>
      if existsb (conflicting parser i) seen then usage_error
      else
        match act a, raw with
        | store, Some s =>
            match type_ a s with
            | Some v => Ok (<[dest a := v]> ns, i :: seen)
            | None => usage_error
            end
        | append, Some s =>
            match type_ a s with
            | Some v =>
                let items := match ns !! dest a with
                             | Some (VList l) => l
                             | _ => []
                             end in
                Ok (<[dest a := VList (items ++ [v])]> ns, i :: seen)
            | None => usage_error
            end
        | store_true, None => Ok (<[dest a := VBool true]> ns, i :: seen)
        | store_false, None => Ok (<[dest a := VBool false]> ns, i :: seen)
        | _, _ => usage_error
        end
  end.

Fixpoint take_actions (parser : list argument)
    (st : gmap string value * list nat) (invs : list (nat * option string))
    : result (gmap string value * list nat) :=
  match invs with
  | [] => Ok st
  | inv :: rest =>
      match take_action parser st inv with
      | Ok st' => take_actions parser st' rest
      | Raise e => Raise e
      end
  end.

Definition run_actions (parser : list argument) (invs : list (nat * option string))
    : result (gmap string value) :=
  match take_actions parser (initial_namespace parser, []) invs with
  | Ok (ns, _) => Ok ns
  | Raise e => Raise e
  end.

(** Cutting the command line: [_parse_optional], [_get_option_tuples] and
    [consume_optional] of argparse, for arguments that take no value or
    exactly one, option strings declared once, and an argument vector
    without the token ["--"] ([run_command] hands a command's parser only
    what stands before the first one). *)
Definition is_digit (c : Ascii.ascii) : bool :=
  let n := Ascii.nat_of_ascii c in (48 <=? n) && (n <=? 57).

Fixpoint all_digits (s : string) : bool :=
  match s with
  | EmptyString => true
  | String c rest => is_digit c && all_digits rest
  end.

(** [^-\d+$|^-\d*\.\d+$], after the dash. *)
Definition negative_number_tail (s : string) : bool :=
  match split1 "." s with
  | [whole] => all_digits whole && negb (String.eqb whole "")
  | [whole; frac] => all_digits whole && all_digits frac && negb (String.eqb frac "")
  | _ => false
  end.

(** [$] also matches before a newline that ends the string. *)
Fixpoint without_final_newline (s : string) : string :=
  match s with
  | EmptyString => EmptyString
  | String c rest =>
      if Ascii.eqb c (Ascii.ascii_of_nat 10) && String.eqb rest "" then EmptyString
      else String c (without_final_newline rest)
  end.

(** [self._negative_number_matcher.match(arg_string)] *)
Definition negative_number (tok : string) : bool :=
  match without_final_newline tok with
  | String "-" tail => negative_number_tail tail
  | _ => false
  end.

(** [self._has_negative_number_optionals] *)
Definition has_negative_number_optionals (parser : list argument) : bool :=
  existsb (λ a, existsb negative_number (option_strings a)) parser.

(** [self._option_string_actions], in declaration order: each option
    string with the index of the argument that declares it. *)
Definition option_string_actions (parser : list argument) : list (string * nat) :=
  mjoin (imap (λ i a, (λ o, (o, i)) <$> option_strings a) parser).

Definition find_option (parser : list argument) (tok : string) : option nat :=
  match list_find (λ oi, oi.1 = tok) (option_string_actions parser) with
  | Some (_, (_, i)) => Some i
  | None => None
  end.

(** The indices of the positionals, in declaration order. *)
Definition positionals (parser : list argument) : list nat :=
  (λ ia, ia.1) <$> filter (λ ia, option_strings ia.2 = []) (imap (λ i a, (i, a)) parser).

(** What [_parse_optional] makes of a token: a positional ([None]); an
    option, with the option string it stands for and the argument that came
    attached to it; or an option the parser does not know
    ([(None, arg_string, None)]). *)
Inductive reading : Type :=
  | ReadPositional
  | ReadOption (i : nat) (option_string : string) (explicit_arg : option string)
  | ReadUnknown.

(** [_get_option_tuples]: the declared options a token abbreviates.  A
    token with two dashes is cut at its first [=] and stands for every
    option string it is a prefix of; a token with one dash stands for the
    one-letter option it starts with, the rest being its argument, and for
    every option string it is a prefix of. *)
Definition get_option_tuples (parser : list argument) (tok : string) : list reading :=
  match tok with
  | String "-" (String "-" _) =>
      let '(option_prefix, explicit_arg) :=
        match split1 "=" tok with
        | [option_prefix; explicit_arg] => (option_prefix, Some explicit_arg)
        | _ => (tok, None)
        end in
      omap (λ oi, if String.prefix option_prefix oi.1
                  then Some (ReadOption oi.2 oi.1 explicit_arg) else None)
           (option_string_actions parser)
  | String "-" (String c short_explicit_arg) =>
      let short_option_prefix := String "-" (String c EmptyString) in
      omap (λ oi, if String.eqb oi.1 short_option_prefix
                  then Some (ReadOption oi.2 oi.1 (Some short_explicit_arg))
                  else if String.prefix tok oi.1
                       then Some (ReadOption oi.2 oi.1 None) else None)
           (option_string_actions parser)
  | _ => []
  end.

(** [_parse_optional] *)
Definition parse_optional (parser : list argument) (tok : string) : result reading :=
  match tok with
  | EmptyString => Ok ReadPositional
  | String c rest =>
      if negb (Ascii.eqb c "-") then Ok ReadPositional
      else
        match find_option parser tok with
        | Some i => Ok (ReadOption i tok None)
        | None =>
            if String.eqb rest "" then Ok ReadPositional
            else
              match (match split1 "=" tok with
                     | [option_string; explicit_arg] =>
                         match find_option parser option_string with
                         | Some i => Some (ReadOption i option_string (Some explicit_arg))
                         | None => None
                         end
                     | _ => None
                     end) with
              | Some option_tuple => Ok option_tuple
              | None =>
                  match get_option_tuples parser tok with
                  | _ :: _ :: _ => usage_error
                  | [option_tuple] => Ok option_tuple
                  | [] =>
                      if negative_number tok && negb (has_negative_number_optionals parser)
                      then Ok ReadPositional
                      else if contains_char " " tok then Ok ReadPositional
                      else Ok ReadUnknown
                  end
              end
        end
  end.

(** The first pass of [_parse_known_args]: every token is read before any
    action is taken, so an ambiguous abbreviation anywhere is a usage
    error. *)
Fixpoint classify (parser : list argument) (argv : list string)
    : result (list (string * reading)) :=
  match argv with
  | [] => Ok []
  | tok :: rest =>
      match parse_optional parser tok with
      | Ok r =>
          match classify parser rest with
          | Ok readings => Ok ((tok, r) :: readings)
          | Raise e => Raise e
          end
      | Raise e => Raise e
      end
  end.

(** The loop of [consume_optional] for an option that came with an
    explicit argument.  An option that takes a value takes it.  A
    one-letter flag is invoked and the argument is read as further
    one-letter options; a flag with two dashes ignores no argument.  The
    result is the invocations made and, when the last option read still
    waits for what follows on the command line, its index. *)
Fixpoint consume_explicit (parser : list argument) (option_string : string)
    (i : nat) (explicit_arg : string)
    : list (nat * option string) * result (option nat) :=
  match act <$> parser !! i with
  | Some store | Some append => ([(i, Some explicit_arg)], Ok None)
  | Some store_true | Some store_false =>
      match option_string with
      | String _ (String "-" _) => ([], usage_error)
      | _ =>
          match explicit_arg with
          | EmptyString => ([], Raise (OtherException "IndexError"))
          | String c new_explicit_arg =>
              let option_string := String "-" (String c EmptyString) in
              match find_option parser option_string with
              | Some j =>
                  if String.eqb new_explicit_arg "" then ([(i, None)], Ok (Some j))
                  else
                    let '(invs, next) :=
                      consume_explicit parser option_string j new_explicit_arg in
                    ((i, None) :: invs, next)
              | None => ([], usage_error)
              end
          end
      end
  | None => ([], usage_error)
  end.

(** The second pass: positionals fill the declared positionals in order,
    options are consumed with their values, and what belongs to nothing is
    left over.  The result is the invocations in the order they are made,
    the leftovers, and how the pass ended: a failure comes after the
    invocations made before it, and the check for missing positionals comes
    last. *)
Fixpoint consume (parser : list argument) (pending : list nat)
    (toks : list (string * reading))
    : list (nat * option string) * list string * result unit :=
  match toks with
  | [] => ([], [], match pending with
                   | [] => Ok tt
                   | _ :: _ => usage_error
                   end)
  | (tok, ReadPositional) :: rest =>
      match pending with
      | i :: pending' =>
          let '(invs, extras, ending) := consume parser pending' rest in
          ((i, Some tok) :: invs, extras, ending)
      | [] =>
          let '(invs, extras, ending) := consume parser pending rest in
          (invs, tok :: extras, ending)
      end
  | (tok, ReadUnknown) :: rest =>
      let '(invs, extras, ending) := consume parser pending rest in
      (invs, tok :: extras, ending)
  | (tok, ReadOption i option_string explicit_arg) :: rest =>
      let '(made, next) :=
        match explicit_arg with
        | Some v => consume_explicit parser option_string i v
        | None => ([], Ok (Some i))
        end in
      match next with
      | Raise e => (made, [], Raise e)
      | Ok None =>
          let '(invs, extras, ending) := consume parser pending rest in
          (made ++ invs, extras, ending)
      | Ok (Some j) =>
          match act <$> parser !! j with
          | Some store_true | Some store_false =>
              let '(invs, extras, ending) := consume parser pending rest in
              (made ++ (j, None) :: invs, extras, ending)
          | Some store | Some append =>
              match rest with
              | (v, ReadPositional) :: rest' =>
                  let '(invs, extras, ending) := consume parser pending rest' in
                  (made ++ (j, Some v) :: invs, extras, ending)
              | _ => (made, [], usage_error)
              end
          | None => (made, [], usage_error)
          end
      end
  end.

(** [parser.parse_known_args(argv)] *)
Definition parse_known_args (parser : list argument) (argv : list string)
    : result (gmap string value * list string) :=
  match classify parser argv with
  | Ok toks =>
      let '(invs, extras, ending) := consume parser (positionals parser) toks in
      match run_actions parser invs with
      | Ok ns =>
          match ending with
          | Ok _ => Ok (ns, extras)
          | Raise e => Raise e
          end
      | Raise e => Raise e
      end
  | Raise e => Raise e
  end.

(** What a list of invocations says the user specified: some invocation
    is of an argument with that destination. *)
Definition specified (parser : list argument) (invs : list (nat * option string))
    (d : string) : Prop :=
  ∃ i raw a, (i, raw) ∈ invs ∧ parser !! i = Some a ∧ dest a = d.

(** The same, read off the arguments seen. *)
Definition seen_dest (parser : list argument) (seen : list nat) (d : string) : Prop :=
  ∃ i a, i ∈ seen ∧ parser !! i = Some a ∧ dest a = d.

(** The default of the first declaration of a destination that has one. *)
Fixpoint first_default (parser : list argument) (d : string) : option value :=
  match parser with
  | [] => None
  | a :: rest =>
      if bool_decide (dest a = d) then
        match default a with
        | Some v => Some v
        | None => first_default rest d
        end
      else first_default rest d
  end.

(** ** router.py: the create and update commands *)

(** Modelled from the spec: [utils.add_boolean_argument] is defined in
    [neutronclient/common/utils.py], which is not among the sources.  The
    spec has these arguments as boolean flags that become API booleans:
    giving the flag stores true, and nothing is stored otherwise (the
    destination stays unset, which is what the [hasattr] test of
    [UpdateRouter.args2body] looks at). *)
Definition add_boolean_argument (name dest : string) : argument :=
  {| option_strings := [name]; dest := dest; act := store_true;
     default := None; type_ := type_str; group := None |}.

(** Modelled from the spec: [neutronV20.update_dict] is not among the
    sources.  It copies into the body the listed attributes that the parsed
    arguments carry with a value other than null, so that a body holds only
    what the user specified. *)
Definition update_dict (obj dict : gmap string value) (attributes : list string)
    : gmap string value :=
  foldl (λ d attribute,
           match obj !! attribute with
           | Some VNone | None => d
           | Some v => <[attribute := v]> d
           end) dict attributes.

(** Modelled from the spec: the [availability_zone] module is not among the
    sources.  The hint option can be repeated, and the hints enter the body
    only when the user gave some. *)
Definition add_az_hint_argument (parser : list argument) : list argument :=
  parser ++ [optional ["--availability-zone-hint"] "availability_zone_hints" append].

(** Modelled from the spec: [availability_zone.args2body_az_hint] is not
    among the sources; the hints are a field like the others, present in
    the body only when specified. *)
Definition args2body_az_hint (parsed_args body : gmap string value)
    : gmap string value :=
  match parsed_args !! "availability_zone_hints" with
  | Some hints => if truthy hints then <["availability_zone_hints" := hints]> body
                  else body
  | None => body
  end.

(** Modelled from the spec: the parser of the base create command is not
    among the sources; of its arguments only the tenant option, whose
    destination [CreateRouter.args2body] reads, is kept. *)
Definition CreateCommand_get_parser : list argument :=
  [optional ["--tenant-id"; "--tenant_id"] "tenant_id" store].

(** Modelled from the spec: the parser of the base update command is not
    among the sources; it takes the resource to update as a positional. *)
Definition UpdateCommand_get_parser : list argument :=
  [positional "id"].

Definition CreateRouter_add_known_arguments (parser : list argument) : list argument :=
  add_az_hint_argument
    (parser ++
     [ optional ["--admin-state-down"] "admin_state" store_false;
       optional ["--admin_state_down"] "admin_state" store_false;
       positional "name";
       add_boolean_argument "--distributed" "distributed";
       add_boolean_argument "--ha" "ha" ]).

Definition CreateRouter_args2body (parsed_args : gmap string value) : result value :=
  match getattr parsed_args "admin_state" with
  | Ok admin_state =>
      let body := {[ "admin_state_up" := admin_state ]} in
      let body := update_dict parsed_args body
                    ["name"; "tenant_id"; "distributed"; "ha"] in
      let body := args2body_az_hint parsed_args body in
      Ok (VDict {[ "router" := VDict body ]})
  | Raise e => Raise e
  end.

(** A group identifier no argument of the parser uses yet:
    [parser.add_mutually_exclusive_group()]. *)
Definition add_mutually_exclusive_group (parser : list argument) : nat :=
  S (foldr (λ a m, match group a with Some g => g `max` m | None => m end) 0 parser).

Section UpdateRouter.

(** [utils.str2dict_type(required_keys=..., optional_keys=...)], the
    conversion of a [key=value,key=value] string into a dictionary. *)
Variable str2dict_type : list string → list string → string → option value.

Definition UpdateRouter_add_known_arguments (parser : list argument) : list argument :=
  let routes_group := add_mutually_exclusive_group parser in
  parser ++
  [ optional ["--name"] "name" store;
    add_boolean_argument "--admin-state-up" "admin_state";
    add_boolean_argument "--admin_state_up" "admin_state";
    add_boolean_argument "--distributed" "distributed";
    {| option_strings := ["--route"]; dest := "routes"; act := append;
       default := Some VNone;
       type_ := str2dict_type ["destination"; "nexthop"] [];
       group := Some routes_group |};
    {| option_strings := ["--no-routes"]; dest := "no_routes"; act := store_true;
       default := Some (VBool false); type_ := type_str;
       group := Some routes_group |} ].

Definition UpdateRouter_args2body (parsed_args : gmap string value) : result value :=
  let body := ∅ in
  let body := if hasattr parsed_args "admin_state" then
                match parsed_args !! "admin_state" with
                | Some admin_state => <["admin_state_up" := admin_state]> body
                | None => body
                end
              else body in
  let body := update_dict parsed_args body ["name"; "distributed"] in
  match getattr parsed_args "no_routes" with
  | Raise e => Raise e
  | Ok no_routes =>
      if truthy no_routes then
        Ok (VDict {[ "router" := VDict (<["routes" := VNone]> body) ]})
      else
        match getattr parsed_args "routes" with
        | Raise e => Raise e
        | Ok routes =>
            if truthy routes then
              Ok (VDict {[ "router" := VDict (<["routes" := routes]> body) ]})
            else Ok (VDict {[ "router" := VDict body ]})
        end
  end.

End UpdateRouter.

(** The destinations [UpdateRouter.args2body] reads. *)
Definition UpdateRouter_dests : list string :=
  ["name"; "admin_state"; "distributed"; "routes"; "no_routes"].

(** What holds of the namespace and of the arguments seen while the
    invocations of a router-update command line are applied; [n] is the
    number of arguments the base parser declared. *)
Record update_invariant (parser : list argument) (n : nat)
    (ns : gmap string value) (seen : list nat) : Prop := {
  inv_admin_state : ∀ v, ns !! "admin_state" = Some v →
    v = VBool true ∧ seen_dest parser seen "admin_state";
  inv_name : ∀ v, ns !! "name" = Some v →
    v = VNone ∨ ((∃ s, v = VStr s) ∧ seen_dest parser seen "name");
  inv_distributed : ∀ v, ns !! "distributed" = Some v →
    v = VBool true ∧ seen_dest parser seen "distributed";
  inv_routes : ∃ v, ns !! "routes" = Some v ∧
    (v = VNone ∨ ((∃ l, v = VList l ∧ l ≠ []) ∧ seen_dest parser seen "routes"));
  inv_no_routes : ∃ b, ns !! "no_routes" = Some (VBool b) ∧
    (b = true ↔ seen_dest parser seen "no_routes");
  inv_exclusive : ¬ (n + 4 ∈ seen ∧ n + 5 ∈ seen);
}.

(** ** Name resolution *)

Section Resolver.

(** Whether a token has the identifier format of the service. *)
Variable is_identifier : string → bool.

(** Modelled from the spec: the collection query filtered by display
    name, which the client module (not among the sources) performs; it
    returns the records of the collection whose display name is [name]. *)
Definition list_by_name (client : neutron_client) (resource name : string)
    : M (list resource_record) :=
  emit (Request (list_resources resource name)) ;;;
  ret (filter (λ r, record_name r = name) (collection client resource)).

(** Modelled from the spec: [neutronV20.find_resourceid_by_name_or_id] is
    defined in [neutronclient/neutron/v2_0/__init__.py], which is not among
    the sources.  A token in the identifier format is the identifier;
    otherwise the collection is queried by display name, and zero matches
    fail with [NotFound], several with [AmbiguousReference] listing the
    candidates, and exactly one gives its identifier. *)
Definition find_resourceid_by_name_or_id
    (client : neutron_client) (resource token : string) : M string :=
  if is_identifier token then ret token
  else
    matches <- list_by_name client resource token ;;
    match matches with
    | [] => raise (NotFound token)
    | [r] => ret (record_id r)
    | _ => raise (AmbiguousReference (record_id <$> matches))
    end.

End Resolver.

(** ** A small deployment, for running the model *)

Module Demo.

Definition is_hex (c : Ascii.ascii) : bool :=
  let n := Ascii.nat_of_ascii c in
  ((48 <=? n) && (n <=? 57)) || ((97 <=? n) && (n <=? 102)).

(** The 8-4-4-4-12 layout of a UUID. *)
Fixpoint uuid_shape (groups : list nat) (s : list Ascii.ascii) : bool :=
  match groups with
  | [] => match s with [] => true | _ => false end
  | g :: rest =>
      forallb is_hex (take g s) && (length (take g s) =? g) &&
      match drop g s, rest with
      | [], [] => true
      | c :: s', _ :: _ => Ascii.eqb c "-" && uuid_shape rest s'
      | _, _ => false
      end
  end.

Definition is_uuid (s : string) : bool :=
  uuid_shape [8; 4; 4; 4; 12] (list_ascii_of_string s).

Definition str (v : value) : string :=
  match v with
  | VStr s => s
  | VNone => "None"
  | VBool true => "True"
  | VBool false => "False"
  | _ => "<object>"
  end.

Definition quote : string := String (Ascii.ascii_of_nat 34) EmptyString.

Definition dumps (v : value) : string :=
  match v with
  | VNone => "null"
  | VBool true => "true"
  | VBool false => "false"
  | VStr s => quote +:+ s +:+ quote
  | _ => "{...}"
  end.

Definition client : neutron_client := {|
  collection := λ resource,
    if String.eqb resource "router" then
      [ {| record_id := "id-123"; record_name := "myrouter" |};
        {| record_id := "id-r1"; record_name := "r1" |};
        {| record_id := "id-dup-a"; record_name := "twin" |};
        {| record_id := "id-dup-b"; record_name := "twin" |} ]
    else if String.eqb resource "subnet" then
      [ {| record_id := "id-s1"; record_name := "s1" |} ]
    else [];
  answer_add_interface_router := λ router_id body,
    Ok (VDict {[ "port_id" := VStr "port-7"; "id" := VStr router_id ]});
  answer_remove_interface_router := λ _ _, Ok VNone;
  answer_remove_gateway_router := λ _, Ok VNone;
|}.

Definition find := find_resourceid_by_name_or_id is_uuid.

(** [s.split(sep)] *)
Fixpoint split_all (sep : Ascii.ascii) (s : string) : list string :=
  match s with
  | EmptyString => [EmptyString]
  | String c rest =>
      if Ascii.eqb c sep then EmptyString :: split_all sep rest
      else match split_all sep rest with
           | hd :: tl => String c hd :: tl
           | [] => [String c EmptyString]
           end
  end.

(** A [key=value,key=value] conversion that insists on the required
    keys. *)
Definition str2dict_type (required optional : list string) (s : string)
    : option value :=
  let pairs := (λ kv, match split1 "=" kv with
                      | [k; v] => Some (k, VStr v)
                      | _ => None
                      end) <$> split_all "," s in
  match mapM id pairs with
  | Some kvs =>
      let d : gmap string value := list_to_map kvs in
      if forallb (λ k, bool_decide (is_Some (d !! k))) required
      then Some (VDict d) else None
  | None => None
  end.

End Demo.

(** ** shell.py: the dispatcher *)

(** The keys of [COMMAND_V2]. *)
Definition COMMAND_V2 : list string :=
  ["bash-completion"; "net-list"; "net-external-list"; "net-show";
    "net-create"; "net-delete"; "net-update"; "subnet-list"; "subnet-show";
    "subnet-create"; "subnet-delete"; "subnet-update"; "subnetpool-list";
    "subnetpool-show"; "subnetpool-create"; "subnetpool-delete";
    "subnetpool-update"; "port-list"; "port-show"; "port-create";
    "port-delete"; "port-update"; "quota-list"; "quota-show"; "quota-delete";
    "quota-update"; "ext-list"; "ext-show"; "router-list";
    "router-port-list"; "router-show"; "router-create"; "router-delete";
    "router-update"; "router-interface-add"; "router-interface-delete";
    "router-gateway-set"; "router-gateway-clear"; "floatingip-list";
    "floatingip-show"; "floatingip-create"; "floatingip-delete";
    "floatingip-associate"; "floatingip-disassociate"; "security-group-list";
    "security-group-show"; "security-group-create"; "security-group-delete";
    "security-group-update"; "security-group-rule-list";
    "security-group-rule-show"; "security-group-rule-create";
    "security-group-rule-delete"; "lbaas-loadbalancer-list";
    "lbaas-loadbalancer-show"; "lbaas-loadbalancer-create";
    "lbaas-loadbalancer-update"; "lbaas-loadbalancer-delete";
    "lbaas-loadbalancer-stats"; "lbaas-loadbalancer-status";
    "lbaas-listener-list"; "lbaas-listener-show"; "lbaas-listener-create";
    "lbaas-listener-update"; "lbaas-listener-delete"; "lbaas-pool-list";
    "lbaas-pool-show"; "lbaas-pool-create"; "lbaas-pool-update";
    "lbaas-pool-delete"; "lbaas-healthmonitor-list";
    "lbaas-healthmonitor-show"; "lbaas-healthmonitor-create";
    "lbaas-healthmonitor-update"; "lbaas-healthmonitor-delete";
    "lbaas-member-list"; "lbaas-member-show"; "lbaas-member-create";
    "lbaas-member-update"; "lbaas-member-delete"; "lb-vip-list";
    "lb-vip-show"; "lb-vip-create"; "lb-vip-update"; "lb-vip-delete";
    "lb-pool-list"; "lb-pool-show"; "lb-pool-create"; "lb-pool-update";
    "lb-pool-delete"; "lb-pool-stats"; "lb-member-list"; "lb-member-show";
    "lb-member-create"; "lb-member-update"; "lb-member-delete";
    "lb-healthmonitor-list"; "lb-healthmonitor-show";
    "lb-healthmonitor-create"; "lb-healthmonitor-update";
    "lb-healthmonitor-delete"; "lb-healthmonitor-associate";
    "lb-healthmonitor-disassociate"; "queue-create"; "queue-delete";
    "queue-show"; "queue-list"; "agent-list"; "agent-show"; "agent-delete";
    "agent-update"; "net-gateway-create"; "net-gateway-update";
    "net-gateway-delete"; "net-gateway-show"; "net-gateway-list";
    "net-gateway-connect"; "net-gateway-disconnect"; "gateway-device-create";
    "gateway-device-update"; "gateway-device-delete"; "gateway-device-show";
    "gateway-device-list"; "dhcp-agent-network-add";
    "dhcp-agent-network-remove"; "net-list-on-dhcp-agent";
    "dhcp-agent-list-hosting-net"; "l3-agent-router-add";
    "l3-agent-router-remove"; "router-list-on-l3-agent";
    "l3-agent-list-hosting-router"; "lb-pool-list-on-agent";
    "lb-agent-hosting-pool"; "lbaas-loadbalancer-list-on-agent";
    "lbaas-agent-hosting-loadbalancer"; "service-provider-list";
    "firewall-rule-list"; "firewall-rule-show"; "firewall-rule-create";
    "firewall-rule-update"; "firewall-rule-delete"; "firewall-policy-list";
    "firewall-policy-show"; "firewall-policy-create";
    "firewall-policy-update"; "firewall-policy-delete";
    "firewall-policy-insert-rule"; "firewall-policy-remove-rule";
    "firewall-list"; "firewall-show"; "firewall-create"; "firewall-update";
    "firewall-delete"; "ipsec-site-connection-list";
    "ipsec-site-connection-show"; "ipsec-site-connection-create";
    "ipsec-site-connection-update"; "ipsec-site-connection-delete";
    "vpn-endpoint-group-list"; "vpn-endpoint-group-show";
    "vpn-endpoint-group-create"; "vpn-endpoint-group-update";
    "vpn-endpoint-group-delete"; "vpn-service-list"; "vpn-service-show";
    "vpn-service-create"; "vpn-service-update"; "vpn-service-delete";
    "vpn-ipsecpolicy-list"; "vpn-ipsecpolicy-show"; "vpn-ipsecpolicy-create";
    "vpn-ipsecpolicy-update"; "vpn-ipsecpolicy-delete"; "vpn-ikepolicy-list";
    "vpn-ikepolicy-show"; "vpn-ikepolicy-create"; "vpn-ikepolicy-update";
    "vpn-ikepolicy-delete"; "meter-label-create"; "meter-label-list";
    "meter-label-show"; "meter-label-delete"; "meter-label-rule-create";
    "meter-label-rule-list"; "meter-label-rule-show";
    "meter-label-rule-delete"; "rbac-create"; "rbac-update"; "rbac-list";
    "rbac-show"; "rbac-delete"; "address-scope-list"; "address-scope-show";
    "address-scope-create"; "address-scope-delete"; "address-scope-update";
    "qos-policy-list"; "qos-policy-show"; "qos-policy-create";
    "qos-policy-update"; "qos-policy-delete";
    "qos-bandwidth-limit-rule-create"; "qos-bandwidth-limit-rule-show";
    "qos-bandwidth-limit-rule-list"; "qos-bandwidth-limit-rule-update";
    "qos-bandwidth-limit-rule-delete"; "qos-available-rule-types";
    "flavor-list"; "flavor-show"; "flavor-create"; "flavor-delete";
    "flavor-update"; "flavor-associate"; "flavor-disassociate";
    "flavor-profile-list"; "flavor-profile-show"; "flavor-profile-create";
    "flavor-profile-delete"; "flavor-profile-update";
    "availability-zone-list"; "auto-allocated-topology-show";
    "bgp-dragent-speaker-add"; "bgp-dragent-speaker-remove";
    "bgp-speaker-list-on-dragent"; "bgp-dragent-list-hosting-speaker";
    "bgp-speaker-list"; "bgp-speaker-advertiseroute-list";
    "bgp-speaker-show"; "bgp-speaker-create"; "bgp-speaker-update";
    "bgp-speaker-delete"; "bgp-speaker-peer-add"; "bgp-speaker-peer-remove";
    "bgp-speaker-network-add"; "bgp-speaker-network-remove"; "bgp-peer-list";
    "bgp-peer-show"; "bgp-peer-create"; "bgp-peer-update"; "bgp-peer-delete" ].

Definition DEBUG_LEVEL : Z := 2.

(** The global options; the dispatcher itself reads only the verbosity. *)
Record options : Type := {
  verbose_level : Z;
}.

(** The result of [parser.parse_known_args]. *)
Definition parsed : Type := (gmap string value * list string)%type.

(** A command object, as far as the dispatcher touches it: whether it is
    the subnet creation command, its [get_parser] (the parser is its
    [parse_known_args]), and its [run], which reads the parsed arguments
    and the [values_specs] attribute set just before. *)
Record command : Type := {
  is_CreateSubnet : bool;
  get_parser : string → result (list string → result parsed);
  cmd_run : gmap string value → list string → M value;
}.

(** The application object: the names in [self.commands[api_version]], the
    global option parser, the command manager, and what is delegated to
    other libraries: the session and client construction of
    [authenticate_user], the text [_bash_completion] prints, and the
    interactive loop. *)
Record NeutronShell : Type := {
  commands : list string;
  parser_parse_known_args : list string → result (options * list string);
  find_command :
    list string → result ((options → result command) * string * list string);
  authenticate : options → result unit;
  bash_completion : result string;
  interact : M value;
}.

Section Shell.

(** [utils.is_valid_cidr] *)
Variable is_valid_cidr : string → bool.

(** Whether an exception (one under [Exception]) is a
    [NeutronClientException], as the exceptions module declares. *)
Variable is_NeutronClientException : exn → bool.

Definition get_first_valid_cidr (value_specs : list string) : option string :=
  head (filter (λ value, is_valid_cidr value = true) value_specs).

(** [l.index(x)], for an [x] that is in [l]. *)
Fixpoint list_index (x : string) (l : list string) : nat :=
  match l with
  | [] => 0
  | y :: rest => if String.eqb y x then 0 else S (list_index x rest)
  end.

(** [l.remove(x)]: the first occurrence goes. *)
Fixpoint list_remove (x : string) (l : list string) : list string :=
  match l with
  | [] => []
  | y :: rest => if String.eqb y x then rest else y :: list_remove x rest
  end.

Definition run_command (cmd : command)
    (cmd_parser : list string → result parsed) (sub_argv : list string) : M value :=
  let _argv := sub_argv in
  let index := (-1)%Z in
  let values_specs := [] in
  let '(index, _argv, values_specs) :=
    if bool_decide ("--" ∈ sub_argv) then
      let index := list_index "--" sub_argv in
      (Z.of_nat index, take index sub_argv, drop index sub_argv)
    else (index, _argv, values_specs) in
  emit (ParseKnownArgs _argv) ;;;
  known <- lift (cmd_parser _argv) ;;
  let '(known_args, _values_specs) := known in
  known <- (if is_CreateSubnet cmd then
              cidr_attr <- lift (getattr known_args "cidr") ;;
              if negb (truthy cidr_attr) then
                match get_first_valid_cidr _values_specs with
                | Some cidr =>
                    if truthy (VStr cidr) then
                      ret (<["cidr" := VStr cidr]> known_args,
                           list_remove cidr _values_specs)
                    else ret (known_args, _values_specs)
                | None => ret (known_args, _values_specs)
                end
              else ret (known_args, _values_specs)
            else ret (known_args, _values_specs)) ;;
  let '(known_args, _values_specs) := known in
  let stored :=
    if (index =? -1)%Z then
      match _values_specs with
      | [] => values_specs
      | _ :: _ => _values_specs
      end
    else values_specs in
  emit (RunCommand known_args stored) ;;;
  cmd_run cmd known_args stored.

(** The positions found by the scan that opens [NeutronShell.run]. *)
Record positions : Type := {
  index : Z;
  command_pos : Z;
  help_pos : Z;
  help_command_pos : Z;
}.

(** The [for arg in argv] loop; [None] when it reaches the completion
    pseudo-command. *)
Fixpoint scan (names : list string) (argv : list string) (p : positions)
    : option positions :=
  match argv with
  | [] => Some p
  | arg :: rest =>
      if String.eqb arg "bash-completion" && (help_command_pos p =? -1)%Z then None
      else
        let p :=
          if bool_decide (arg ∈ names) then
            if (command_pos p =? -1)%Z then
              {| index := index p; command_pos := index p;
                 help_pos := help_pos p; help_command_pos := help_command_pos p |}
            else p
          else if bool_decide (arg ∈ ["-h"; "--help"]) then
            if (help_pos p =? -1)%Z then
              {| index := index p; command_pos := command_pos p;
                 help_pos := index p; help_command_pos := help_command_pos p |}
            else p
          else if String.eqb arg "help" then
            if (help_command_pos p =? -1)%Z then
              {| index := index p; command_pos := command_pos p;
                 help_pos := help_pos p; help_command_pos := index p |}
            else p
          else p in
        scan names rest
          {| index := index p + 1; command_pos := command_pos p;
             help_pos := help_pos p; help_command_pos := help_command_pos p |}
  end.

(** The two rewritings of [argv] after the scan. *)
Definition rewrite_argv (p : positions) (argv : list string) : result (list string) :=
  match
    (if (-1 <? command_pos p)%Z && (command_pos p <? help_pos p)%Z then
       match argv !! Z.to_nat (command_pos p) with
       | Some name => Ok ["help"; name]
       | None => Raise (OtherException "IndexError")
       end
     else Ok argv)
  with
  | Ok argv =>
      if (-1 <? help_command_pos p)%Z && (command_pos p =? -1)%Z then
        if bool_decide (Z.to_nat (help_command_pos p) < length argv) then
          Ok (<[Z.to_nat (help_command_pos p) := "--help"]> argv)
        else Raise (OtherException "IndexError")
      else Ok argv
  | Raise e => Raise e
  end.

Definition authenticate_user (self : NeutronShell) (opts : options) : M unit :=
  emit Authenticate ;;;
  lift (authenticate self opts).

Definition initialize_app (self : NeutronShell) (opts : options)
    (interactive_mode : bool) (argv : list string) : M unit :=
  cmd_name <- (match argv with
               | [] => ret None
               | _ :: _ =>
                   cmd_info <- lift (find_command self argv) ;;
                   let '(cmd_factory, cmd_name, sub_argv) := cmd_info in
                   ret (Some cmd_name)
               end) ;;
  if interactive_mode || negb (bool_decide (cmd_name = Some "help")) then
    authenticate_user self opts
  else ret tt.

Definition run_subcommand (self : NeutronShell) (opts : options)
    (interactive_mode : bool) (argv : list string) : M value :=
  subcommand <- lift (find_command self argv) ;;
  let '(cmd_factory, cmd_name, sub_argv) := subcommand in
  cmd <- lift (cmd_factory opts) ;;
  try_except
    (let full_name := if interactive_mode then cmd_name
                      else "neutron " +:+ cmd_name in
     cmd_parser <- lift (get_parser cmd full_name) ;;
     run_command cmd cmd_parser sub_argv)
    (λ e, match e with
          | SystemExit _ =>
              Some (emit (Print stderr ("Try 'neutron help " +:+ cmd_name
                                        +:+ "' for more information.")) ;;;
                    raise e)
          | _ =>
              if is_Exception e then
                Some (if (DEBUG_LEVEL <=? verbose_level opts)%Z then raise e
                      else ret (VInt 1))
              else None
          end).

(** The except clause of [NeutronShell.run]; [self.options] is set only
    once the global options have been parsed. *)
Definition run_except (opts : option options) (err : exn) : option (M value) :=
  if is_Exception err then
    Some match opts with
         | None => raise (AttributeError "verbose_level")
         | Some opts =>
             if (DEBUG_LEVEL <=? verbose_level opts)%Z then raise err
             else ret (VInt 1)
         end
  else None.

Definition NeutronShell_run (self : NeutronShell) (argv : list string) : M value :=
  match scan (commands self) argv
          {| index := 0; command_pos := -1; help_pos := -1; help_command_pos := -1 |}
  with
  | None =>
      try_except
        (text <- lift (bash_completion self) ;;
         emit (Print stdout text) ;;;
         ret (VInt 0))
        (run_except None)
  | Some p =>
      state <- try_except
                 (argv <- lift (rewrite_argv p argv) ;;
                  parsed_options <- lift (parser_parse_known_args self argv) ;;
                  ret (inr parsed_options))
                 (λ err, match run_except None err with
                         | Some h => Some (v <- h ;; ret (inl v))
                         | None => None
                         end) ;;
      match state with
      | inl v => ret v
      | inr (opts, remainder) =>
          let interactive_mode := bool_decide (remainder = []) in
          state <- try_except
                     (initialize_app self opts interactive_mode remainder ;;;
                      ret (inr tt))
                     (λ err, match run_except (Some opts) err with
                             | Some h => Some (v <- h ;; ret (inl v))
                             | None => None
                             end) ;;
          match state with
          | inl v => ret v
          | inr _ =>
              if interactive_mode then interact self
              else run_subcommand self opts interactive_mode remainder
          end
      end
  end.

Definition main (self : NeutronShell) (argv : list string) : M value :=
  try_except (NeutronShell_run self argv)
    (λ e, match e with
          | KeyboardInterrupt =>
              Some (emit (Print stderr "... terminating neutron client") ;;;
                    ret (VInt 130))
          | _ =>
              if is_Exception e then
                Some (if is_NeutronClientException e then ret (VInt 1)
                      else emit (PrintException stdout e) ;;; ret (VInt 1))
              else None
          end).

(** [sys.exit(arg)]: the status the process ends with. *)
Definition sys_exit (arg : value) : Z :=
  match arg with
  | VNone => 0
  | VInt n => n
  | VBool b => if b then 1 else 0
  | _ => 1
  end.

(** [sys.exit(main(sys.argv[1:]))], with what the interpreter does with an
    exception nothing caught. *)
Definition process_exit_code (self : NeutronShell) (argv : list string) : Z :=
  match (main self argv).2 with
  | Ok v => sys_exit v
  | Raise (SystemExit arg) => sys_exit arg
  | Raise KeyboardInterrupt => 130
  | Raise _ => 1
  end.

End Shell.

(** ** A small shell over the demonstration deployment *)

Module DemoShell.

Definition is_cidr_char (c : Ascii.ascii) : bool :=
  is_digit c || Ascii.eqb c "." || Ascii.eqb c "/".

Fixpoint all_cidr_chars (s : string) : bool :=
  match s with
  | EmptyString => true
  | String c rest => is_cidr_char c && all_cidr_chars rest
  end.

Definition is_valid_cidr (s : string) : bool :=
  contains_char "/" s && all_cidr_chars s.

Definition is_NeutronClientException (e : exn) : bool :=
  match e with
  | ClientError _ _ | NotFound _ => true
  | _ => false
  end.

(** The parser of the subnet creation command in the two situations the
    comment on bug 1442771 describes: the cidr next to the network is
    parsed; the cidr separated from it by an option is left over. *)
Definition subnet_create_parser (argv : list string) : result parsed :=
  match argv with
  | [network; cidr] =>
      Ok ({[ "network_id" := VStr network; "cidr" := VStr cidr;
             "name" := VNone ]}, [])
  | [network; option; name; leftover] =>
      if String.eqb option "--name" then
        Ok ({[ "network_id" := VStr network; "cidr" := VNone;
               "name" := VStr name ]}, [leftover])
      else usage_error
  | _ => usage_error
  end.

Definition CreateSubnet : command := {|
  is_CreateSubnet := true;
  get_parser := λ _, Ok subnet_create_parser;
  cmd_run := λ _ _, ret (VInt 0);
|}.

Definition CreateRouter : command := {|
  is_CreateSubnet := false;
  get_parser := λ _,
    Ok (parse_known_args (CreateRouter_add_known_arguments CreateCommand_get_parser));
  cmd_run := λ parsed_args _,
    body <- lift (CreateRouter_args2body parsed_args) ;;
    ret (VInt 0);
|}.

Definition RemoveGatewayRouter : command := {|
  is_CreateSubnet := false;
  get_parser := λ _, Ok (parse_known_args [positional "router"]);
  cmd_run := λ parsed_args _,
    match parsed_args !! "router" with
    | Some (VStr router) =>
        RemoveGatewayRouter_run Demo.find Demo.client {| gc_router := router |}
    | _ => raise (AttributeError "router")
    end;
|}.

Definition AddInterfaceRouter : command := {|
  is_CreateSubnet := false;
  get_parser := λ _,
    Ok (parse_known_args [positional "router"; positional "interface"]);
  cmd_run := λ parsed_args _,
    match parsed_args !! "router", parsed_args !! "interface" with
    | Some (VStr router), Some (VStr interface) =>
        RouterInterfaceCommand_run Demo.find (AddInterfaceRouter Demo.str)
          Demo.client {| ia_router := router; ia_interface := interface |}
    | _, _ => raise (AttributeError "interface")
    end;
|}.

Definition HelpCommand : command := {|
  is_CreateSubnet := false;
  get_parser := λ _, Ok (λ argv, Ok (∅, argv));
  cmd_run := λ _ _, emit (Print stdout "usage: neutron ...") ;;; ret (VInt 0);
|}.

Definition is_verbose_flag (tok : string) : bool :=
  bool_decide (tok ∈ ["-v"; "--verbose"; "--debug"]).

(** Global options: each verbosity flag adds one to the default level 1,
    [--help] exits with status 0, everything else is left over. *)
Definition global_parse (argv : list string) : result (options * list string) :=
  if bool_decide ("--help" ∈ argv) then Raise (SystemExit (VInt 0))
  else
    Ok ({| verbose_level := 1 + Z.of_nat (length (filter (λ t, is_verbose_flag t = true) argv)) |},
        filter (λ t, is_verbose_flag t = false) argv).

Definition command_table : list (string * command) :=
  [ ("help", HelpCommand);
    ("subnet-create", CreateSubnet);
    ("router-create", CreateRouter);
    ("router-gateway-clear", RemoveGatewayRouter);
    ("router-interface-add", AddInterfaceRouter) ].

Definition lookup_command (argv : list string)
    : result ((options → result command) * string * list string) :=
  match argv with
  | name :: sub_argv =>
      match list_find (λ entry, entry.1 = name) command_table with
      | Some (_, (_, cmd)) => Ok (λ _, Ok cmd, name, sub_argv)
      | None => Raise (OtherException "ValueError")
      end
  | [] => Raise (OtherException "ValueError")
  end.

Definition shell : NeutronShell := {|
  commands := COMMAND_V2;
  parser_parse_known_args := global_parse;
  find_command := lookup_command;
  authenticate := λ _, Ok tt;
  bash_completion := Ok "bash-completion net-list router-create --help";
  interact := ret (VInt 0);
|}.

Definition main := main is_valid_cidr is_NeutronClientException shell.
Definition exit_code := process_exit_code is_valid_cidr is_NeutronClientException shell.

(** The same shell in front of an identity provider that answers the
    authentication with the given failure. *)
Definition unauthenticated_shell (failure : exn) : NeutronShell := {|
  commands := COMMAND_V2;
  parser_parse_known_args := global_parse;
  find_command := lookup_command;
  authenticate := λ _, Raise failure;
  bash_completion := Ok "bash-completion net-list router-create --help";
  interact := ret (VInt 0);
|}.

End DemoShell.

(** ** router.py: setting the gateway *)

(** The arguments [SetGatewayRouter.get_parser] declares.  A [--fixed-ip]
    value is a dictionary of strings; the option can be repeated and is
    absent ([None]) when not given. *)
Record gateway_set_args : Type := {
  gs_router : string;
  gs_external_network : string;
  gs_disable_snat : bool;
  gs_fixed_ip : option (list (gmap string string));
}.

Section SetGateway.

Variable find_resourceid_by_name_or_id :
  neutron_client → string → string → M string.

(** [neutron_client.add_gateway_router], of the client module. *)
Variable client_add_gateway_router :
  neutron_client → string → value → M value.

(** The body of the [for ip_spec in parsed_args.fixed_ip] loop. *)
Definition resolve_fixed_ip (client : neutron_client) (ip_spec : gmap string string)
    : M (gmap string string) :=
  match ip_spec !! "subnet_id" with
  | Some subnet_name_id =>
      if negb (String.eqb subnet_name_id "") then
        subnet_id <- find_resourceid_by_name_or_id client "subnet" subnet_name_id ;;
        ret (<["subnet_id" := subnet_id]> ip_spec)
      else ret ip_spec
  | None => ret ip_spec
  end.

Fixpoint resolve_fixed_ips (client : neutron_client)
    (specs : list (gmap string string)) : M (list (gmap string string)) :=
  match specs with
  | [] => ret []
  | ip_spec :: rest =>
      ip_spec <- resolve_fixed_ip client ip_spec ;;
      ips <- resolve_fixed_ips client rest ;;
      ret (ip_spec :: ips)
  end.

Definition fixed_ip_value (ip_spec : gmap string string) : value :=
  VDict (VStr <$> ip_spec).

(** [SetGatewayRouter.run] *)
Definition SetGatewayRouter_run
    (client : neutron_client) (parsed_args : gateway_set_args) : M value :=
  _router_id <- find_resourceid_by_name_or_id
                  client "router" (gs_router parsed_args) ;;
  _ext_net_id <- find_resourceid_by_name_or_id
                   client "network" (gs_external_network parsed_args) ;;
  let router_dict : gmap string value := {[ "network_id" := VStr _ext_net_id ]} in
  let router_dict :=
    if gs_disable_snat parsed_args then <["enable_snat" := VBool false]> router_dict
    else router_dict in
  router_dict <- (match gs_fixed_ip parsed_args with
                  | Some ((_ :: _) as fixed_ip) =>
                      ips <- resolve_fixed_ips client fixed_ip ;;
                      ret (<["external_fixed_ips" := VList (fixed_ip_value <$> ips)]>
                             router_dict)
                  | _ => ret router_dict
                  end) ;;
  client_add_gateway_router client _router_id (VDict router_dict) ;;;
  emit (Print stdout ("Set gateway for router " +:+ gs_router parsed_args)) ;;;
  ret VNone.

End SetGateway.

(** ** shell.py: the helpers around the dispatcher *)

(** [env], given the process environment: the first of the
    variables that is set to a non-empty value, else the [default] keyword,
    else the empty string. *)
Fixpoint env (environ : gmap string string) (_vars : list string)
    (default : option value) : value :=
  match _vars with
  | [] => match default with
          | Some d => d
          | None => VStr ""
          end
  | v :: rest =>
      match environ !! v with
      | Some value => if negb (String.eqb value "") then VStr value
                      else env environ rest default
      | None => env environ rest default
      end
  end.





(** The levels of the [logging] module that [configure_logging] uses. *)
Inductive log_level : Type := LOG_DEBUG | LOG_INFO | LOG_WARNING.

Definition WARNING_LEVEL : Z := 0.
Definition INFO_LEVEL : Z := 1.

(** The [console_level] that [configure_logging] looks up. *)
Definition console_level (verbose_level : Z) : log_level :=
  match ({[ WARNING_LEVEL := LOG_WARNING; INFO_LEVEL := LOG_INFO;
            DEBUG_LEVEL := LOG_DEBUG ]} : gmap Z log_level) !! verbose_level with
  | Some level => level
  | None => LOG_DEBUG
  end.

(** The level the console handler is set to, and whether it gets the debug
    message format. *)
Definition console_set_level (verbose_level : Z) : log_level :=
  match console_level verbose_level with
  | LOG_INFO => LOG_WARNING
  | level => level
  end.

Definition console_debug_format (verbose_level : Z) : bool :=
  match console_level verbose_level with
  | LOG_DEBUG => true
  | _ => false
  end.

(** The position of the first element with a property, as the scan of
    [NeutronShell.run] records it: [-1] when there is none. *)
Definition first_pos (P : string → bool) (l : list string) : Z :=
  match list_find (λ x, P x = true) l with
  | Some (i, _) => Z.of_nat i
  | None => -1
  end.

Definition is_command (names : list string) (arg : string) : bool :=
  bool_decide (arg ∈ names).

Definition is_help_option (names : list string) (arg : string) : bool :=
  negb (is_command names arg) && bool_decide (arg ∈ ["-h"; "--help"]).

Definition is_help_word (names : list string) (arg : string) : bool :=
  negb (is_command names arg) && negb (bool_decide (arg ∈ ["-h"; "--help"]))
  && String.eqb arg "help".

(** ** Fixtures of the demonstration deployment for the router commands *)

Module DemoRouter.

(** Tokens in the identifier format: they resolve to themselves. *)
Definition port_id : string := "0a1b2c3d-0000-4000-8000-00000000abcd".
Definition network_id : string := "11111111-2222-3333-4444-555555555555".

(** A service that accepts every gateway. *)
Definition add_gateway_router
    (client : neutron_client) (router_id : string) (body : value) : M value :=
  ret VNone.

(** The demonstration client in front of a service that answers the
    add-interface call as given. *)
Definition client_answering (answer : result value) : neutron_client := {|
  collection := collection Demo.client;
  answer_add_interface_router := λ _ _, answer;
  answer_remove_interface_router := answer_remove_interface_router Demo.client;
  answer_remove_gateway_router := answer_remove_gateway_router Demo.client;
|}.

(** Two [--fixed-ip] values: a subnet by name with an address, and an
    address alone. *)
Definition fixed_ips : list (gmap string string) :=
  [ {[ "subnet_id" := "s1"; "ip_address" := "10.0.0.5" ]};
    {[ "ip_address" := "10.0.0.6" ]} ].

End DemoRouter.

(** * Properties *)

(** ** The computation monad and the string helpers *)

Lemma bind_ret_l {A B} (a : A) (k : A → M B) : bind (ret a) k = k a.
Proof. unfold bind, ret. by destruct (k a). Qed.

Lemma bind_raise {A B} (e : exn) (k : A → M B) : bind (raise e) k = raise e.
Proof. done. Qed.

Lemma bind_ok {A B} (t : list event) (a : A) (k : A → M B) :
  bind (t, Ok a) k = (t ++ (k a).1, (k a).2).
Proof. unfold bind. by destruct (k a). Qed.

Lemma bind_ok_eq {A B} (t t' : list event) (a : A) (k : A → M B) r :
  k a = (t', r) → bind (t, Ok a) k = (t ++ t', r).
Proof. unfold bind. by intros ->. Qed.

Lemma bind_assoc {A B C} (m : M A) (k : A → M B) (h : B → M C) :
  bind (bind m k) h = bind m (λ a, bind (k a) h).
Proof.
  destruct m as [t [a|e]]; [|done].
  unfold bind. destruct (k a) as [t1 [b|e1]]; [|done].
  destruct (h b) as [t2 r2]. by rewrite app_assoc.
Qed.

Lemma split1_no_sep sep s : contains_char sep s = false → split1 sep s = [s].
Proof.
  induction s as [|c rest IH]; simpl; [done|].
  destruct (Ascii.eqb c sep); [done|]. intros H. by rewrite IH.
Qed.

Lemma split1_app sep x v :
  contains_char sep x = false →
  split1 sep (x +:+ String sep v) = [x; v].
Proof.
  induction x as [|c rest IH]; simpl.
  - by rewrite Ascii.eqb_refl.
  - destruct (Ascii.eqb c sep); [done|]. intros H. by rewrite IH.
Qed.

Lemma contains_char_app sep x v : contains_char sep (x +:+ String sep v) = true.
Proof.
  induction x as [|c rest IH]; simpl.
  - by rewrite Ascii.eqb_refl.
  - by destruct (Ascii.eqb c sep).
Qed.

(** ** router.py *)

Section RouterProperties.

Context (py_str dumps : value → string).
Context (find : neutron_client → string → string → M string).

Local Abbreviation interface_run := (RouterInterfaceCommand_run find).
Local Abbreviation AddInterface := (AddInterfaceRouter py_str).

(** The tuple unpacked from the INTERFACE argument. *)
Lemma interface_split_explicit x v :
  contains_char "=" x = false →
  contains_char "=" (x +:+ "=" +:+ v) = true ∧
  split1 "=" (x +:+ "=" +:+ v) = [x; v].
Proof.
  intros Hx. split.
  - apply contains_char_app.
  - by apply split1_app.
Qed.

(** With an explicit [resource=value] INTERFACE, whatever the resource
    word is, the command goes on to the two resolutions and the call. *)
Lemma interface_run_explicit self client router x v :
  contains_char "=" x = false →
  interface_run self client {| ia_router := router; ia_interface := x +:+ "=" +:+ v |} =
    (_router_id <- find client "router" router ;;
     _interface_id <- find client x v ;;
     portinfo <- call_api client _router_id
                   (VDict {[ x +:+ "_id" := VStr _interface_id ]}) ;;
     message <- lift (success_message router portinfo) ;;
     emit (Print stdout message) ;;;
     ret VNone).
Proof.
  intros Hx. destruct (interface_split_explicit x v Hx) as [Hin Hsp].
  unfold RouterInterfaceCommand_run. cbn [ia_interface ia_router].
  rewrite Hin, Hsp.
  by case_bool_decide; rewrite bind_ret_l.
Qed.

(** C8: the external_gateway_info column formatter gives the JSON
    rendering of the record's 'external_gateway_info' value when the
    record is a mapping with that key, and the empty string when the key
    is absent or the record is not a mapping. *)
Theorem format_external_gateway_info_cases (router : value) :
  (∀ d v, router = VDict d → d !! "external_gateway_info" = Some v →
     format_external_gateway_info dumps router = Ok (dumps v)) ∧
  (∀ d, router = VDict d → d !! "external_gateway_info" = None →
     format_external_gateway_info dumps router = Ok "") ∧
  ((∀ d, router ≠ VDict d) →
     format_external_gateway_info dumps router = Ok "").
Proof.
  unfold format_external_gateway_info, getitem.
  split_and!.
  - intros d v -> Hv. by rewrite Hv.
  - intros d -> Hv. by rewrite Hv.
  - intros Hnd. destruct router; try done. by destruct (Hnd g).
Qed.

(** C4: for [router-interface-add ROUTER subnet=SUBNET] where the router
    token resolves to [R] and the subnet token to [S], the command calls
    add-interface on router [R] with body [{"subnet_id": S}] and prints
    the interface-added message built from the [port_id] field of the
    returned port information. *)
Theorem add_interface_subnet_scenario
    client router subnet (t1 t2 : list event) (R S : string) portinfo port :
  find client "router" router = (t1, Ok R) →
  find client "subnet" subnet = (t2, Ok S) →
  answer_add_interface_router client R (VDict {[ "subnet_id" := VStr S ]}) = Ok portinfo →
  getitem portinfo "port_id" = Ok port →
  interface_run AddInterface client
      {| ia_router := router; ia_interface := "subnet=" +:+ subnet |} =
    (t1 ++ t2 ++
       [ Request (add_interface_router R (VDict {[ "subnet_id" := VStr S ]}));
         Print stdout ("Added interface " +:+ py_str port +:+ " to router "
                       +:+ router +:+ ".") ],
     Ok VNone).
Proof.
  intros Hr Hs Hadd Hport.
  change ("subnet=" +:+ subnet) with ("subnet" +:+ "=" +:+ subnet).
  rewrite interface_run_explicit by done.
  rewrite Hr. apply bind_ok_eq. rewrite Hs. apply bind_ok_eq.
  change ("subnet" +:+ "_id") with "subnet_id".
  cbn [call_api success_message AddInterfaceRouter].
  unfold client_add_interface_router, emit, lift, ret, bind.
  by rewrite Hadd, Hport.
Qed.

(** C5: for [router-gateway-clear ROUTER] where the token resolves to an
    identifier [R], the command calls remove-gateway with [R] and prints
    [Removed gateway from router ROUTER], with the token the user typed
    and not the identifier. *)
Theorem gateway_clear_scenario client router (t : list event) (R : string) answer :
  find client "router" router = (t, Ok R) →
  answer_remove_gateway_router client R = Ok answer →
  RemoveGatewayRouter_run find client {| gc_router := router |} =
    (t ++ [ Request (remove_gateway_router R);
            Print stdout ("Removed gateway from router " +:+ router) ],
     Ok VNone).
Proof.
  intros Hr Hanswer. unfold RemoveGatewayRouter_run. cbn [gc_router].
  rewrite Hr. apply bind_ok_eq.
  unfold client_remove_gateway_router, emit, lift, ret, bind.
  by rewrite Hanswer.
Qed.

(** C9: an INTERFACE argument [X=V] whose [X] is neither [subnet] nor
    [port] raises no usage error: the command resolves the router and
    then attempts the resolution of [V] as a resource of type [X], and
    carries on from its outcome. *)
Theorem interface_unknown_resource_not_rejected self client router x v :
  contains_char "=" x = false →
  x ≠ "subnet" → x ≠ "port" →
  interface_run self client
      {| ia_router := router; ia_interface := x +:+ "=" +:+ v |} =
    (_router_id <- find client "router" router ;;
     _interface_id <- find client x v ;;
     portinfo <- call_api client _router_id
                   (VDict {[ x +:+ "_id" := VStr _interface_id ]}) ;;
     message <- lift (success_message router portinfo) ;;
     emit (Print stdout message) ;;;
     ret VNone) ∧
  ∀ t1 R, find client "router" router = (t1, Ok R) →
    ∃ t', (interface_run self client
             {| ia_router := router; ia_interface := x +:+ "=" +:+ v |}).1 =
          t1 ++ (find client x v).1 ++ t' ∧
    ∀ e, (find client x v).2 = Raise e →
         interface_run self client
           {| ia_router := router; ia_interface := x +:+ "=" +:+ v |} =
         (t1 ++ (find client x v).1, Raise e).
Proof.
  intros Hx _ _. rewrite interface_run_explicit by done.
  split; [done|]. intros t1 R ->.
  destruct (find client x v) as [t2 [I|e2]] eqn:Hfind.
  - rewrite bind_ok, bind_ok. cbn [fst snd].
    eexists. split; [reflexivity|]. by intros e.
  - exists []. cbn. rewrite app_nil_r. split; [done|]. by intros e [= ->].
Qed.

End RouterProperties.

(** The scenarios, run on the demonstration deployment. *)

Lemma format_external_gateway_info_cases_witness :
  format_external_gateway_info Demo.dumps
    (VDict {[ "id" := VStr "id-123"; "external_gateway_info" := VNone ]}) = Ok "null" ∧
  format_external_gateway_info Demo.dumps (VDict {[ "id" := VStr "id-123" ]}) = Ok "" ∧
  format_external_gateway_info Demo.dumps VNone = Ok "".
Proof.
  split_and!.
  - exact (proj1 (format_external_gateway_info_cases Demo.dumps _)
             {[ "id" := VStr "id-123"; "external_gateway_info" := VNone ]} VNone
             eq_refl eq_refl).
  - exact (proj1 (proj2 (format_external_gateway_info_cases Demo.dumps _))
             {[ "id" := VStr "id-123" ]} eq_refl eq_refl).
  - apply (proj2 (proj2 (format_external_gateway_info_cases Demo.dumps VNone))).
    discriminate.
Defined.

Lemma add_interface_subnet_scenario_witness :
  RouterInterfaceCommand_run Demo.find (AddInterfaceRouter Demo.str) Demo.client
      {| ia_router := "r1"; ia_interface := "subnet=s1" |} =
    ([ Request (list_resources "router" "r1");
       Request (list_resources "subnet" "s1");
       Request (add_interface_router "id-r1" (VDict {[ "subnet_id" := VStr "id-s1" ]}));
       Print stdout "Added interface port-7 to router r1." ],
     Ok VNone).
Proof.
  exact (add_interface_subnet_scenario Demo.str Demo.find Demo.client "r1" "s1"
           [Request (list_resources "router" "r1")]
           [Request (list_resources "subnet" "s1")]
           "id-r1" "id-s1"
           (VDict {[ "port_id" := VStr "port-7"; "id" := VStr "id-r1" ]})
           (VStr "port-7") eq_refl eq_refl eq_refl eq_refl).
Defined.

Lemma gateway_clear_scenario_witness :
  RemoveGatewayRouter_run Demo.find Demo.client {| gc_router := "myrouter" |} =
    ([ Request (list_resources "router" "myrouter");
       Request (remove_gateway_router "id-123");
       Print stdout "Removed gateway from router myrouter" ],
     Ok VNone).
Proof.
  exact (gateway_clear_scenario Demo.find Demo.client "myrouter"
           [Request (list_resources "router" "myrouter")] "id-123" VNone
           eq_refl eq_refl).
Defined.

Lemma interface_unknown_resource_not_rejected_witness :
  RouterInterfaceCommand_run Demo.find (AddInterfaceRouter Demo.str) Demo.client
      {| ia_router := "r1"; ia_interface := "network=s1" |} =
    ([ Request (list_resources "router" "r1");
       Request (list_resources "network" "s1") ],
     Raise (NotFound "s1")).
Proof.
  destruct (interface_unknown_resource_not_rejected Demo.find
              (AddInterfaceRouter Demo.str) Demo.client "r1" "network" "s1")
    as [_ Hattempt]; [reflexivity | discriminate | discriminate |].
  destruct (Hattempt [Request (list_resources "router" "r1")] "id-r1" eq_refl)
    as (t' & _ & Hfail).
  exact (Hfail (NotFound "s1") eq_refl).
Defined.

(** ** argparse *)

Lemma app_cons_not_nil_r {A} (l : list A) (x : A) : l ++ [x] ≠ [].
Proof. by destruct l. Qed.

Lemma take_action_ok parser ns seen i raw ns' seen' :
  take_action parser (ns, seen) (i, raw) = Ok (ns', seen') →
  seen' = i :: seen ∧
  existsb (conflicting parser i) seen = false ∧
  ∃ a v, parser !! i = Some a ∧ ns' = <[dest a := v]> ns ∧
    match act a with
    | store => ∃ s, raw = Some s ∧ type_ a s = Some v
    | append => ∃ l, v = VList l ∧ l ≠ []
    | store_true => v = VBool true
    | store_false => v = VBool false
    end.
Proof.
  unfold take_action, usage_error.
  destruct (parser !! i) as [a|]; [|done].
  destruct (existsb _ seen); [done|].
  destruct (act a) eqn:Hact, raw as [s|]; try done.
  - destruct (type_ a s) as [v|] eqn:Hty; [|done].
    intros [= <- <-]. split_and!; [done..|].
    exists a, v. rewrite Hact. eauto.
  - intros [= <- <-]. split_and!; [done..|].
    exists a, (VBool true). by rewrite Hact.
  - intros [= <- <-]. split_and!; [done..|].
    exists a, (VBool false). by rewrite Hact.
  - destruct (type_ a s) as [v|] eqn:Hty; [|done].
    intros [= <- <-]. split_and!; [done..|].
    eexists a, _. rewrite Hact. split_and!; [done..|].
    eexists. split; [done|]. apply app_cons_not_nil_r.
Qed.

Lemma take_actions_seen parser invs ns seen ns' seen' :
  take_actions parser (ns, seen) invs = Ok (ns', seen') →
  seen' = reverse (invs.*1) ++ seen.
Proof.
  revert ns seen. induction invs as [|[i raw] invs IH]; intros ns seen; cbn [take_actions].
  - by intros [= <- <-].
  - destruct (take_action parser (ns, seen) (i, raw)) as [[ns1 seen1]|] eqn:Hstep; [|done].
    intros Hrest. apply IH in Hrest as ->.
    apply take_action_ok in Hstep as (-> & _).
    rewrite fmap_cons, reverse_cons. cbn. by rewrite <-app_assoc.
Qed.

Lemma specified_seen parser invs d :
  specified parser invs d ↔ seen_dest parser (reverse (invs.*1)) d.
Proof.
  unfold specified, seen_dest. split.
  - intros (i & raw & a & Hin & Ha & Hd). exists i, a. split_and!; [|done..].
    rewrite elem_of_reverse. apply list_elem_of_fmap. by exists (i, raw).
  - intros (i & a & Hin & Ha & Hd).
    rewrite elem_of_reverse in Hin. apply list_elem_of_fmap in Hin as [[j raw] [-> Hin]].
    by exists j, raw, a.
Qed.

Lemma initial_namespace_from parser acc d :
  foldl (λ ns a,
           match default a with
           | Some v => if hasattr ns (dest a) then ns else <[dest a := v]> ns
           | None => ns
           end) acc parser !! d =
  match acc !! d with
  | Some v => Some v
  | None => first_default parser d
  end.
Proof.
  revert acc. induction parser as [|a rest IH]; intros acc; cbn [foldl first_default].
  - by destruct (acc !! d).
  - rewrite IH. unfold hasattr. destruct (decide (dest a = d)) as [<-|Hne].
    + rewrite (bool_decide_eq_true_2 (dest a = dest a)) by done.
      destruct (default a) as [v|]; [|done].
      destruct (acc !! dest a) as [w|] eqn:Hw.
      * rewrite bool_decide_eq_true_2 by eauto. by rewrite Hw.
      * rewrite bool_decide_eq_false_2 by (by intros [? ?]).
        by rewrite lookup_insert_eq.
    + rewrite (bool_decide_eq_false_2 (dest a = d)) by done.
      destruct (default a) as [v|]; [|done].
      case_bool_decide; [done|]. by rewrite lookup_insert_ne.
Qed.

Lemma initial_namespace_lookup parser d :
  initial_namespace parser !! d = first_default parser d.
Proof. unfold initial_namespace. by rewrite initial_namespace_from, lookup_empty. Qed.

Lemma first_default_app_other base rest d :
  Forall (λ a, dest a ≠ d) base →
  first_default (base ++ rest) d = first_default rest d.
Proof.
  induction 1 as [|a base Ha _ IH]; [done|].
  cbn [app first_default]. by case_bool_decide.
Qed.

Lemma seen_dest_cons parser i a seen d :
  parser !! i = Some a →
  seen_dest parser (i :: seen) d ↔ dest a = d ∨ seen_dest parser seen d.
Proof.
  intros Ha. unfold seen_dest. split.
  - intros (j & b & Hin & Hb & Hd). apply elem_of_cons in Hin as [->|Hin].
    + left. congruence.
    + right. by exists j, b.
  - intros [Hd|(j & b & Hin & Hb & Hd)].
    + exists i, a. split_and!; [by left|done..].
    + exists j, b. split_and!; [by right|done..].
Qed.

Lemma seen_dest_nil parser d : ¬ seen_dest parser [] d.
Proof. intros (j & b & Hin & _). by apply elem_of_nil in Hin. Qed.

Lemma update_dict_lookup obj attributes dict k v :
  update_dict obj dict attributes !! k = Some v →
  (k ∈ attributes ∧ obj !! k = Some v ∧ v ≠ VNone) ∨ dict !! k = Some v.
Proof.
  unfold update_dict. revert dict.
  induction attributes as [|a rest IH]; intros dict; cbn [foldl]; [by right|].
  intros H. apply IH in H as [(Hin & Hobj & Hv)|H].
  - left. split_and!; [by right|done..].
  - destruct (obj !! a) as [w|] eqn:Hw; [|by right].
    assert (w = VNone ∨ w ≠ VNone) as [->|Hnn] by (destruct w; eauto).
    { by right. }
    assert (<[a:=w]> dict !! k = Some v) as H' by (by destruct w).
    apply lookup_insert_Some in H' as [[<- <-]|[_ H']]; [|by right].
    left. split_and!; [by left|done..].
Qed.

(** ** router-update *)

Section UpdateRouterProperties.

Context (str2dict_type : list string → list string → string → option value).
Context (base : list argument).
Hypothesis base_disjoint : Forall (λ a, dest a ∉ UpdateRouter_dests) base.

Local Abbreviation parser := (UpdateRouter_add_known_arguments str2dict_type base).

Lemma update_parser_classify i a :
  parser !! i = Some a →
  (i < length base ∧ dest a ∉ UpdateRouter_dests) ∨
  (i = length base ∧ dest a = "name" ∧ act a = store ∧ type_ a = type_str) ∨
  ((i = length base + 1 ∨ i = length base + 2) ∧
     dest a = "admin_state" ∧ act a = store_true) ∨
  (i = length base + 3 ∧ dest a = "distributed" ∧ act a = store_true) ∨
  (i = length base + 4 ∧ dest a = "routes" ∧ act a = append) ∨
  (i = length base + 5 ∧ dest a = "no_routes" ∧ act a = store_true).
Proof.
  unfold UpdateRouter_add_known_arguments. cbn zeta.
  destruct (decide (i < length base)) as [Hlt|Hge].
  - rewrite lookup_app_l by done. intros Ha. left. split; [done|].
    by eapply (Forall_lookup_1 _ _ _ _ base_disjoint).
  - rewrite lookup_app_r by lia.
    assert (∃ k, i = length base + k) as [k ->] by (exists (i - length base); lia).
    replace (length base + k - length base) with k by lia.
    do 6 (destruct k as [|k]; [intros [= <-]; cbn; rewrite ?Nat.add_0_r; naive_solver|]).
    done.
Qed.

Lemma update_parser_conflict :
  conflicting parser (length base + 4) (length base + 5) = true ∧
  conflicting parser (length base + 5) (length base + 4) = true.
Proof.
  unfold conflicting, UpdateRouter_add_known_arguments. cbn zeta.
  rewrite !lookup_app_r by lia.
  replace (length base + 4 - length base) with 4 by lia.
  replace (length base + 5 - length base) with 5 by lia.
  cbn. rewrite !bool_decide_eq_true_2 by (done || lia). done.
Qed.

Ltac in_dests :=
  unfold UpdateRouter_dests;
  repeat first [ apply list_elem_of_here | apply list_elem_of_further ].

(** Closes a case where an argument would have two destinations. *)
Ltac other_dest Hd Hn :=
  rewrite Hd in Hn;
  first [ discriminate Hn
        | exfalso; apply Hn; unfold UpdateRouter_dests;
          repeat first [ apply list_elem_of_here | apply list_elem_of_further ] ].

Lemma update_dest_ne a d :
  dest a ∉ UpdateRouter_dests → d ∈ UpdateRouter_dests → dest a ≠ d.
Proof. by intros Hnot Hin <-. Qed.

Lemma update_invariant_initial :
  update_invariant parser (length base) (initial_namespace parser) [].
Proof.
  assert (∀ d, d ∈ UpdateRouter_dests →
            initial_namespace parser !! d =
            first_default (UpdateRouter_add_known_arguments str2dict_type []) d) as Hinit.
  { intros d Hd. rewrite initial_namespace_lookup.
    unfold UpdateRouter_add_known_arguments. cbn zeta.
    rewrite first_default_app_other; [done|].
    eapply Forall_impl; [exact base_disjoint|].
    intros a Ha. by apply update_dest_ne. }
  split.
  - intros v. rewrite Hinit by in_dests. done.
  - intros v. rewrite Hinit by in_dests. cbn. intros [= <-]. by left.
  - intros v. rewrite Hinit by in_dests. done.
  - exists VNone. rewrite Hinit by in_dests. split; [done|by left].
  - exists false. rewrite Hinit by in_dests. split; [done|].
    split; [done|]. intros H. by apply seen_dest_nil in H.
  - intros [H _]. by apply elem_of_nil in H.
Qed.

Lemma update_invariant_step ns seen inv ns' seen' :
  update_invariant parser (length base) ns seen →
  take_action parser (ns, seen) inv = Ok (ns', seen') →
  update_invariant parser (length base) ns' seen'.
Proof.
  intros [J1 J2 J3 J4 J5 J6] Hstep. destruct inv as [i raw].
  apply take_action_ok in Hstep
    as (-> & Hconf & a & v & Ha & -> & Hshape).
  pose proof (update_parser_classify i a Ha) as Hclass.
  pose proof (seen_dest_cons parser i a seen) as Hcons.
  split.
  - intros w. rewrite lookup_insert. case_decide as Hd.
    + intros [= <-]. rewrite Hcons by done.
      destruct Hclass as [[_ Hn]|[(_ & Hn & _)|[(_ & _ & Hact)|[(_ & Hn & _)|[(_ & Hn & _)|(_ & Hn & _)]]]]];
        try (by other_dest Hd Hn).
      rewrite Hact in Hshape. by split; [|left].
    + intros Hw. apply J1 in Hw as [-> Hs]. split; [done|].
      rewrite Hcons by done. by right.
  - intros w. rewrite lookup_insert. case_decide as Hd.
    + intros [= <-]. rewrite Hcons by done.
      destruct Hclass as [[_ Hn]|[(_ & _ & Hact & Hty)|[(_ & Hn & _)|[(_ & Hn & _)|[(_ & Hn & _)|(_ & Hn & _)]]]]];
        try (by other_dest Hd Hn).
      rewrite Hact in Hshape. destruct Hshape as (s & -> & Hv).
      rewrite Hty in Hv. injection Hv as <-. right. split; [eauto|by left].
    + intros Hw. apply J2 in Hw as [->|[Hs Hseen]]; [by left|].
      right. split; [done|]. rewrite Hcons by done. by right.
  - intros w. rewrite lookup_insert. case_decide as Hd.
    + intros [= <-]. rewrite Hcons by done.
      destruct Hclass as [[_ Hn]|[(_ & Hn & _)|[(_ & Hn & _)|[(_ & _ & Hact)|[(_ & Hn & _)|(_ & Hn & _)]]]]];
        try (by other_dest Hd Hn).
      rewrite Hact in Hshape. by split; [|left].
    + intros Hw. apply J3 in Hw as [-> Hs]. split; [done|].
      rewrite Hcons by done. by right.
  - destruct J4 as (r & Hr & Hrs). rewrite lookup_insert. case_decide as Hd.
    + exists v. split; [done|]. rewrite Hcons by done.
      destruct Hclass as [[_ Hn]|[(_ & Hn & _)|[(_ & Hn & _)|[(_ & Hn & _)|[(_ & _ & Hact)|(_ & Hn & _)]]]]];
        try (by other_dest Hd Hn).
      rewrite Hact in Hshape. right. split; [done|by left].
    + exists r. split; [done|]. destruct Hrs as [->|[Hl Hs]]; [by left|].
      right. split; [done|]. rewrite Hcons by done. by right.
  - destruct J5 as (b & Hb & Hbs). rewrite lookup_insert. case_decide as Hd.
    + destruct Hclass as [[_ Hn]|[(_ & Hn & _)|[(_ & Hn & _)|[(_ & Hn & _)|[(_ & Hn & _)|(_ & _ & Hact)]]]]];
        try (by other_dest Hd Hn).
      rewrite Hact in Hshape. subst v. exists true. split; [done|].
      rewrite Hcons by done. by split; [left|].
    + exists b. split; [done|]. rewrite Hcons by done. rewrite Hbs.
      split; [by right|]. by intros [?|?].
  - intros [H4 H5]. destruct update_parser_conflict as [C45 C54].
    apply elem_of_cons in H4 as [H4|H4], H5 as [H5|H5].
    + lia.
    + subst i. assert (existsb (conflicting parser (length base + 4)) seen = true) as Hex.
      { apply existsb_exists. exists (length base + 5). split; [|done].
        by apply list_elem_of_In. }
      congruence.
    + subst i. assert (existsb (conflicting parser (length base + 5)) seen = true) as Hex.
      { apply existsb_exists. exists (length base + 4). split; [|done].
        by apply list_elem_of_In. }
      congruence.
    + by apply J6.
Qed.

Lemma update_invariant_run invs ns seen ns' seen' :
  update_invariant parser (length base) ns seen →
  take_actions parser (ns, seen) invs = Ok (ns', seen') →
  update_invariant parser (length base) ns' seen'.
Proof.
  revert ns seen. induction invs as [|inv invs IH]; intros ns seen J; cbn [take_actions].
  - by intros [= <- <-].
  - destruct (take_action parser (ns, seen) inv) as [[ns1 seen1]|] eqn:Hstep; [|done].
    apply IH. by eapply update_invariant_step.
Qed.

Lemma seen_routes seen :
  seen_dest parser seen "routes" → length base + 4 ∈ seen.
Proof.
  intros (i & a & Hin & Ha & Hd).
  destruct (update_parser_classify i a Ha)
    as [[_ Hn]|[(_ & Hn & _)|[(_ & Hn & _)|[(_ & Hn & _)|[(-> & _)|(_ & Hn & _)]]]]];
    by first [other_dest Hd Hn | idtac].
Qed.

Lemma seen_no_routes seen :
  seen_dest parser seen "no_routes" → length base + 5 ∈ seen.
Proof.
  intros (i & a & Hin & Ha & Hd).
  destruct (update_parser_classify i a Ha)
    as [[_ Hn]|[(_ & Hn & _)|[(_ & Hn & _)|[(_ & Hn & _)|[(_ & Hn & _)|(-> & _)]]]]];
    by first [other_dest Hd Hn | idtac].
Qed.

(** The part of the body built before the routes are looked at. *)
Lemma update_body_fields ns seen k v :
  update_invariant parser (length base) ns seen →
  update_dict ns
    (if hasattr ns "admin_state" then
       match ns !! "admin_state" with
       | Some admin_state => <["admin_state_up" := admin_state]> ∅
       | None => ∅
       end
     else ∅) ["name"; "distributed"] !! k = Some v →
  (k = "admin_state_up" ∧ v ≠ VNone ∧ seen_dest parser seen "admin_state") ∨
  (k = "name" ∧ v ≠ VNone ∧ seen_dest parser seen "name") ∨
  (k = "distributed" ∧ v ≠ VNone ∧ seen_dest parser seen "distributed").
Proof.
  intros [J1 J2 J3 _ _ _] Hk.
  apply update_dict_lookup in Hk as [(Hin & Hns & Hv)|Hk].
  - apply elem_of_cons in Hin as [->|Hin].
    + right; left. apply J2 in Hns as [->|[_ Hs]]; [done|]. done.
    + apply list_elem_of_singleton in Hin as ->.
      right; right. apply J3 in Hns as [-> Hs]. done.
  - left. unfold hasattr in Hk.
    destruct (ns !! "admin_state") as [w|] eqn:Hw.
    + rewrite bool_decide_eq_true_2 in Hk by eauto.
      apply lookup_insert_Some in Hk as [[<- <-]|[_ Hk]]; [|by rewrite lookup_empty in Hk].
      destruct (J1 w eq_refl) as [-> Hs]. done.
    + by case_bool_decide; rewrite lookup_empty in Hk.
Qed.

(** C6: the body of a router update holds only fields the user specified,
    each with a value other than null, except that [--no-routes] puts
    ["routes": null] in it; and [--route] and [--no-routes] cannot both
    have been given. *)
Theorem update_router_body_only_specified invs parsed_args :
  run_actions parser invs = Ok parsed_args →
  ∃ body,
    UpdateRouter_args2body parsed_args = Ok (VDict {[ "router" := VDict body ]}) ∧
    (∀ k v, body !! k = Some v →
       (k = "admin_state_up" ∧ v ≠ VNone ∧ specified parser invs "admin_state") ∨
       (k = "name" ∧ v ≠ VNone ∧ specified parser invs "name") ∨
       (k = "distributed" ∧ v ≠ VNone ∧ specified parser invs "distributed") ∨
       (k = "routes" ∧ v ≠ VNone ∧ specified parser invs "routes") ∨
       (k = "routes" ∧ v = VNone ∧ specified parser invs "no_routes")) ∧
    (specified parser invs "no_routes" → body !! "routes" = Some VNone) ∧
    ¬ (specified parser invs "routes" ∧ specified parser invs "no_routes").
Proof.
  unfold run_actions.
  destruct (take_actions parser (initial_namespace parser, []) invs)
    as [[ns seen]|] eqn:Hrun; [|done].
  intros [= ->].
  pose proof (update_invariant_run _ _ _ _ _ update_invariant_initial Hrun) as J.
  apply take_actions_seen in Hrun. rewrite app_nil_r in Hrun.
  assert (∀ d, specified parser invs d ↔ seen_dest parser seen d) as Hspec.
  { intros d. by rewrite specified_seen, Hrun. }
  pose proof (update_body_fields parsed_args seen) as Hfields.
  destruct J as [J1 J2 J3 (r & Hr & Hrs) (b & Hb & Hbs) J6] eqn:HJ. clear HJ.
  assert (¬ (specified parser invs "routes" ∧ specified parser invs "no_routes")) as Hexcl.
  { rewrite !Hspec. intros [H4 H5]. apply J6. split.
    - by apply seen_routes.
    - by apply seen_no_routes. }
  unfold UpdateRouter_args2body, getattr. rewrite Hb. cbn [truthy].
  destruct b.
  - eexists. split; [done|]. split_and!; [|by intros; apply lookup_insert_eq|done].
    intros k v Hk. apply lookup_insert_Some in Hk as [[<- <-]|[_ Hk]].
    + do 4 right. split_and!; [done..|]. apply Hspec, Hbs. done.
    + rewrite !Hspec. apply Hfields in Hk; [|done].
      destruct Hk as [Hk|[Hk|Hk]]; [by left | by right; left | by right; right; left].
  - assert (¬ specified parser invs "no_routes") as Hno.
    { rewrite Hspec, <-Hbs. done. }
    rewrite Hr. destruct Hrs as [->|[(l & -> & Hl) Hs]]; cbn [truthy].
    + eexists. split; [done|]. split_and!; [|done..].
      intros k v Hk. rewrite !Hspec. apply Hfields in Hk; [|done].
      destruct Hk as [Hk|[Hk|Hk]]; [by left | by right; left | by right; right; left].
    + destruct l as [|x l]; [done|].
      eexists. split; [done|]. split_and!; [|done..].
      intros k v Hk. apply lookup_insert_Some in Hk as [[<- <-]|[_ Hk]].
      * do 3 right. left. split_and!; [done..|]. by apply Hspec.
      * rewrite !Hspec. apply Hfields in Hk; [|done].
      destruct Hk as [Hk|[Hk|Hk]]; [by left | by right; left | by right; right; left].
Qed.

End UpdateRouterProperties.

Lemma update_router_body_only_specified_witness :
  let parser := UpdateRouter_add_known_arguments Demo.str2dict_type UpdateCommand_get_parser in
  let invs := [(0, Some "r1"); (1, Some "core"); (6, None)] in
  ∃ parsed_args,
    run_actions parser invs = Ok parsed_args ∧
    ∃ body,
      UpdateRouter_args2body parsed_args = Ok (VDict {[ "router" := VDict body ]}) ∧
      (∀ k v, body !! k = Some v →
         (k = "admin_state_up" ∧ v ≠ VNone ∧ specified parser invs "admin_state") ∨
         (k = "name" ∧ v ≠ VNone ∧ specified parser invs "name") ∨
         (k = "distributed" ∧ v ≠ VNone ∧ specified parser invs "distributed") ∨
         (k = "routes" ∧ v ≠ VNone ∧ specified parser invs "routes") ∨
         (k = "routes" ∧ v = VNone ∧ specified parser invs "no_routes")) ∧
      (specified parser invs "no_routes" → body !! "routes" = Some VNone) ∧
      ¬ (specified parser invs "routes" ∧ specified parser invs "no_routes").
Proof.
  intros parser invs.
  exists {[ "id" := VStr "r1"; "name" := VStr "core"; "routes" := VNone;
            "no_routes" := VBool true ]}.
  split.
  - vm_compute. reflexivity.
  - apply (update_router_body_only_specified Demo.str2dict_type UpdateCommand_get_parser).
    + apply Forall_cons. split; [|by apply Forall_nil].
      cbn. unfold UpdateRouter_dests. intros H.
      repeat (apply elem_of_cons in H as [H|H]; [discriminate|]).
      by apply elem_of_nil in H.
    + vm_compute. reflexivity.
Defined.

Example router_update_parse :
  parse_known_args
    (UpdateRouter_add_known_arguments Demo.str2dict_type UpdateCommand_get_parser)
    ["r1"; "--name"; "core"; "--no-routes"] =
  Ok ({[ "id" := VStr "r1"; "name" := VStr "core"; "routes" := VNone;
         "no_routes" := VBool true ]}, []).
Proof. vm_compute. reflexivity. Qed.

Example router_update_body :
  UpdateRouter_args2body
    {[ "id" := VStr "r1"; "name" := VStr "core"; "routes" := VNone;
       "no_routes" := VBool true ]} =
  Ok (VDict {[ "router" := VDict {[ "name" := VStr "core"; "routes" := VNone ]} ]}).
Proof. vm_compute. reflexivity. Qed.

Example router_update_route_and_no_routes :
  parse_known_args
    (UpdateRouter_add_known_arguments Demo.str2dict_type UpdateCommand_get_parser)
    ["r1"; "--route"; "destination=10.0.0.0/24,nexthop=10.0.0.1"; "--no-routes"] =
  Raise (SystemExit (VInt 2)).
Proof. vm_compute. reflexivity. Qed.

(** ** Name resolution *)

Section ResolverProperties.

Context (is_identifier : string → bool).

Local Abbreviation find := (find_resourceid_by_name_or_id is_identifier).

(** C1: a token in the identifier format is returned as it is, with no
    list call; any other token costs one collection query filtered by
    display name, after which exactly one match gives its identifier, no
    match fails with [NotFound] and two or more matches fail with
    [AmbiguousReference]: no match is ever picked among several. *)
Theorem find_resourceid_by_name_or_id_cases client resource token :
  (is_identifier token = true →
     find client resource token = ([], Ok token)) ∧
  (is_identifier token = false →
     let matches :=
       filter (λ r, record_name r = token) (collection client resource) in
     (find client resource token).1 = [Request (list_resources resource token)] ∧
     (matches = [] →
        (find client resource token).2 = Raise (NotFound token)) ∧
     (∀ r, matches = [r] →
        (find client resource token).2 = Ok (record_id r)) ∧
     (2 ≤ length matches →
        (find client resource token).2 =
          Raise (AmbiguousReference (record_id <$> matches)))).
Proof.
  unfold find_resourceid_by_name_or_id, list_by_name. split.
  - by intros ->.
  - intros ->. cbn zeta.
    destruct (filter _ (collection client resource)) as [|r [|r' rest]] eqn:Hm;
      cbn; split_and!; try done; try (cbn; lia).
    by intros r0 [= <-].
Qed.

End ResolverProperties.

Lemma find_resourceid_by_name_or_id_cases_witness :
  Demo.find Demo.client "router" "0a1b2c3d-0000-4111-8222-0123456789ab" =
    ([], Ok "0a1b2c3d-0000-4111-8222-0123456789ab") ∧
  Demo.find Demo.client "router" "myrouter" =
    ([Request (list_resources "router" "myrouter")], Ok "id-123") ∧
  Demo.find Demo.client "router" "ghost" =
    ([Request (list_resources "router" "ghost")], Raise (NotFound "ghost")) ∧
  Demo.find Demo.client "router" "twin" =
    ([Request (list_resources "router" "twin")],
     Raise (AmbiguousReference ["id-dup-a"; "id-dup-b"])).
Proof.
  pose proof (find_resourceid_by_name_or_id_cases Demo.is_uuid Demo.client "router") as H.
  split_and!.
  - exact (proj1 (H "0a1b2c3d-0000-4111-8222-0123456789ab") eq_refl).
  - destruct (proj2 (H "myrouter") eq_refl) as (Ht & _ & Hone & _).
    apply injective_projections; [exact Ht|].
    exact (Hone {| record_id := "id-123"; record_name := "myrouter" |} eq_refl).
  - destruct (proj2 (H "ghost") eq_refl) as (Ht & Hnone & _).
    apply injective_projections; [exact Ht|]. exact (Hnone eq_refl).
  - destruct (proj2 (H "twin") eq_refl) as (Ht & _ & _ & Hmany).
    apply injective_projections; [exact Ht|]. apply Hmany. vm_compute. lia.
Defined.

(** ** shell.py: run_command *)

Lemma list_index_app pre post x :
  x ∉ pre → list_index x (pre ++ x :: post) = length pre.
Proof.
  induction pre as [|y pre IH]; cbn [list_index app length].
  - by rewrite String.eqb_refl.
  - intros Hnot. apply not_elem_of_cons in Hnot as [Hne Hnot].
    destruct (String.eqb_spec y x) as [->|_]; [done|]. by rewrite IH.
Qed.

Section RunCommandProperties.

Context (is_valid_cidr : string → bool).

Local Abbreviation run_command := (run_command is_valid_cidr).

(** What [run_command] does once the parser has answered, for a command
    other than the subnet creation. *)
Lemma run_command_plain cmd cmd_parser argv known leftovers :
  "--" ∉ argv →
  is_CreateSubnet cmd = false →
  cmd_parser argv = Ok (known, leftovers) →
  run_command cmd cmd_parser argv =
    (ParseKnownArgs argv :: RunCommand known leftovers
       :: (cmd_run cmd known leftovers).1,
     (cmd_run cmd known leftovers).2).
Proof.
  intros Hno Hsub Hparse. unfold run_command.
  rewrite bool_decide_eq_false_2 by done.
  unfold emit, lift, ret, bind. rewrite Hparse, Hsub. cbn.
  destruct leftovers; by destruct (cmd_run cmd known _).
Qed.

(** C10, as the code has it: with a ["--"] in the argument vector the
    command's parser is given the tokens before the first ["--"] and the
    command's free-form values are the rest, ["--"] included; without one
    the parser is given the whole vector and the free-form values are its
    leftovers, except that the subnet creation command with no cidr parsed
    takes the first leftover that is a valid CIDR as its cidr and drops it
    from the leftovers. *)
Theorem run_command_separator cmd cmd_parser :
  (∀ pre post, "--" ∉ pre →
     (∀ e, cmd_parser pre = Raise e →
        run_command cmd cmd_parser (pre ++ "--" :: post) =
          ([ParseKnownArgs pre], Raise e)) ∧
     (∀ known leftovers, cmd_parser pre = Ok (known, leftovers) →
        (is_CreateSubnet cmd = true → is_Some (known !! "cidr")) →
        ∃ ns, run_command cmd cmd_parser (pre ++ "--" :: post) =
          (ParseKnownArgs pre :: RunCommand ns ("--" :: post)
             :: (cmd_run cmd ns ("--" :: post)).1,
           (cmd_run cmd ns ("--" :: post)).2))) ∧
  (∀ argv known leftovers, "--" ∉ argv →
     cmd_parser argv = Ok (known, leftovers) →
     (is_CreateSubnet cmd = false ∨
      (∃ c, known !! "cidr" = Some c ∧ truthy c = true) ∨
      (is_Some (known !! "cidr") ∧ get_first_valid_cidr is_valid_cidr leftovers = None) →
      run_command cmd cmd_parser argv =
        (ParseKnownArgs argv :: RunCommand known leftovers
           :: (cmd_run cmd known leftovers).1,
         (cmd_run cmd known leftovers).2)) ∧
     (is_CreateSubnet cmd = true →
      ∀ c cidr, known !! "cidr" = Some c → truthy c = false →
        get_first_valid_cidr is_valid_cidr leftovers = Some cidr → cidr ≠ "" →
        run_command cmd cmd_parser argv =
          (ParseKnownArgs argv
             :: RunCommand (<["cidr" := VStr cidr]> known) (list_remove cidr leftovers)
             :: (cmd_run cmd (<["cidr" := VStr cidr]> known)
                   (list_remove cidr leftovers)).1,
           (cmd_run cmd (<["cidr" := VStr cidr]> known)
              (list_remove cidr leftovers)).2))).
Proof.
  split.
  - intros pre post Hpre.
    assert ("--" ∈ pre ++ "--" :: post) as Hin
      by (apply elem_of_app; right; apply list_elem_of_here).
    unfold run_command. rewrite (bool_decide_eq_true_2 _ Hin).
    rewrite list_index_app, take_app_length, drop_app_length by done.
    unfold emit, lift, ret, bind, getattr. split.
    + intros e ->. done.
    + intros known leftovers -> Hcidr.
      assert ((Z.of_nat (length pre) =? -1)%Z = false) as -> by (apply Z.eqb_neq; lia).
      destruct (is_CreateSubnet cmd).
      * destruct (Hcidr eq_refl) as [c ->].
        destruct (truthy c); cbn [negb].
        -- exists known. by destruct (cmd_run cmd known _).
        -- destruct (get_first_valid_cidr is_valid_cidr leftovers) as [cidr|].
           ++ destruct (truthy (VStr cidr)).
              ** exists (<["cidr" := VStr cidr]> known). by destruct (cmd_run cmd _ _).
              ** exists known. by destruct (cmd_run cmd known _).
           ++ exists known. by destruct (cmd_run cmd known _).
      * exists known. by destruct (cmd_run cmd known _).
  - intros argv known leftovers Hno Hparse.
    unfold run_command. rewrite (bool_decide_eq_false_2 _ Hno).
    unfold emit, lift, ret, bind, getattr. rewrite Hparse. cbn [Z.eqb Pos.eqb].
    split.
    + intros [->|[(c & Hc & Htruthy)|[[c Hc] Hnone]]].
      * destruct leftovers; cbn; by destruct (cmd_run cmd known _).
      * rewrite Hc, Htruthy. destruct (is_CreateSubnet cmd);
          destruct leftovers; cbn; by destruct (cmd_run cmd known _).
      * rewrite Hc, Hnone. destruct (is_CreateSubnet cmd); [destruct (truthy c)|];
          destruct leftovers; cbn; by destruct (cmd_run cmd known _).
    + intros -> c cidr Hc Htruthy Hfirst Hnonempty.
      rewrite Hc, Htruthy, Hfirst. cbn [negb truthy].
      assert (String.eqb cidr "" = false) as -> by by apply String.eqb_neq.
      cbn [negb]. destruct (list_remove cidr leftovers);
        cbn; by destruct (cmd_run cmd _ _).
Qed.

End RunCommandProperties.

Example demo_gateway_clear :
  DemoShell.main ["router-gateway-clear"; "myrouter"] =
    ([ Authenticate; ParseKnownArgs ["myrouter"];
       RunCommand {[ "router" := VStr "myrouter" ]} [];
       Request (list_resources "router" "myrouter");
       Request (remove_gateway_router "id-123");
       Print stdout "Removed gateway from router myrouter" ],
     Ok VNone).
Proof. vm_compute. reflexivity. Qed.

Lemma run_command_leftovers_counterexample :
  ("--" ∉ ["net1"; "--name"; "s1"; "10.0.0.0/24"]) ∧
  DemoShell.subnet_create_parser ["net1"; "--name"; "s1"; "10.0.0.0/24"] =
    Ok ({[ "network_id" := VStr "net1"; "cidr" := VNone; "name" := VStr "s1" ]},
        ["10.0.0.0/24"]) ∧
  run_command DemoShell.is_valid_cidr DemoShell.CreateSubnet
      DemoShell.subnet_create_parser ["net1"; "--name"; "s1"; "10.0.0.0/24"] =
    ([ ParseKnownArgs ["net1"; "--name"; "s1"; "10.0.0.0/24"];
       RunCommand {[ "network_id" := VStr "net1"; "cidr" := VStr "10.0.0.0/24";
                     "name" := VStr "s1" ]} [] ],
     Ok (VInt 0)) ∧
  ¬ ∃ ns rest,
      (run_command DemoShell.is_valid_cidr DemoShell.CreateSubnet
         DemoShell.subnet_create_parser
         ["net1"; "--name"; "s1"; "10.0.0.0/24"]).1 =
      ParseKnownArgs ["net1"; "--name"; "s1"; "10.0.0.0/24"]
        :: RunCommand ns ["10.0.0.0/24"] :: rest.
Proof.
  split_and!.
  - intros H. repeat (apply elem_of_cons in H as [H|H]; [discriminate|]).
    by apply elem_of_nil in H.
  - vm_compute. reflexivity.
  - vm_compute. reflexivity.
  - intros (ns & rest & H). vm_compute in H. discriminate.
Qed.

Lemma run_command_separator_witness :
  ∃ ns,
    run_command DemoShell.is_valid_cidr DemoShell.CreateRouter
      (parse_known_args (CreateRouter_add_known_arguments CreateCommand_get_parser))
      (["myrouter"] ++ "--" :: ["--description"; "edge"]) =
    (ParseKnownArgs ["myrouter"]
       :: RunCommand ns ["--"; "--description"; "edge"]
       :: (cmd_run DemoShell.CreateRouter ns ["--"; "--description"; "edge"]).1,
     (cmd_run DemoShell.CreateRouter ns ["--"; "--description"; "edge"]).2).
Proof.
  destruct (run_command_separator DemoShell.is_valid_cidr DemoShell.CreateRouter
              (parse_known_args
                 (CreateRouter_add_known_arguments CreateCommand_get_parser)))
    as [Hsep _].
  assert ("--" ∉ ["myrouter"]) as Hpre.
  { intros H. apply elem_of_cons in H as [H|H]; [discriminate|].
    by apply elem_of_nil in H. }
  destruct (Hsep ["myrouter"] ["--description"; "edge"] Hpre) as [_ Hok].
  refine (Hok {[ "tenant_id" := VNone; "admin_state" := VBool true;
                 "name" := VStr "myrouter"; "availability_zone_hints" := VNone ]}
            [] _ _).
  - vm_compute. reflexivity.
  - discriminate.
Defined.

(** ** shell.py: the dispatcher *)

Section ShellProperties.

Context (is_valid_cidr : string → bool).
Context (is_NeutronClientException : exn → bool).

Local Abbreviation command_run := (run_command is_valid_cidr).
Local Abbreviation sub_run := (run_subcommand is_valid_cidr).
Local Abbreviation shell_run := (NeutronShell_run is_valid_cidr).
Local Abbreviation shell_main := (main is_valid_cidr is_NeutronClientException).
Local Abbreviation exit_code :=
  (process_exit_code is_valid_cidr is_NeutronClientException).

(** The status a process ends with when an exception nothing caught is
    what ends it: 130 for [KeyboardInterrupt], the argument of [SystemExit],
    and 1 for every exception under [Exception]. *)
Local Abbreviation failure_status e :=
  (match e with
   | KeyboardInterrupt => 130%Z
   | SystemExit arg => sys_exit arg
   | _ => 1%Z
   end).

(** The status a process ends with, given how a computation ended when
    nothing below [main] turned the ending into something else. *)
Local Abbreviation status_of r :=
  (match r with
   | Ok v => sys_exit v
   | Raise e => failure_status e
   end).

Local Abbreviation start :=
  {| index := 0; command_pos := -1; help_pos := -1; help_command_pos := -1 |}.

Lemma exit_code_of_run self argv :
  exit_code self argv = status_of (shell_run self argv).2.
Proof.
  unfold process_exit_code, main, try_except.
  destruct (shell_run self argv) as [t [v|e]]; [done|].
  destruct e; cbn; try done;
    by destruct (is_NeutronClientException _).
Qed.

Lemma run_subcommand_status self opts remainder cmd_factory cmd_name sub_argv
    cmd cmd_parser :
  find_command self remainder = Ok (cmd_factory, cmd_name, sub_argv) →
  cmd_factory opts = Ok cmd →
  get_parser cmd ("neutron " +:+ cmd_name) = Ok cmd_parser →
  status_of (sub_run self opts false remainder).2 =
  status_of (command_run cmd cmd_parser sub_argv).2.
Proof.
  intros Hfind Hfactory Hparser.
  unfold run_subcommand, lift, bind, try_except.
  rewrite Hfind, Hfactory, Hparser. cbn.
  destruct (command_run cmd cmd_parser sub_argv) as [t [v|e]]; [done|].
  destruct e; cbn; try done;
    by destruct (DEBUG_LEVEL <=? verbose_level opts)%Z.
Qed.

Lemma run_reaches_subcommand self argv p argv' opts remainder t_init :
  scan (commands self) argv start = Some p →
  rewrite_argv p argv = Ok argv' →
  parser_parse_known_args self argv' = Ok (opts, remainder) →
  remainder ≠ [] →
  initialize_app self opts false remainder = (t_init, Ok tt) →
  shell_run self argv =
    (t_init ++ (sub_run self opts false remainder).1,
     (sub_run self opts false remainder).2).
Proof.
  intros Hscan Hrw Hparse Hrem Hinit.
  unfold NeutronShell_run. rewrite Hscan.
  unfold lift, ret, bind, try_except. rewrite Hrw, Hparse.
  cbn -[run_subcommand initialize_app].
  rewrite (bool_decide_eq_false_2 (remainder = [])) by done.
  rewrite Hinit.
  cbn -[run_subcommand].
  destruct (sub_run self opts false remainder) as [t_sub r_sub].
  cbn. by rewrite app_nil_r.
Qed.

(** The positions the scan records lie inside the argument vector. *)
Lemma scan_bounds names l : ∀ p p',
  scan names l p = Some p' →
  (0 ≤ index p)%Z →
  (-1 ≤ command_pos p < index p)%Z →
  (-1 ≤ help_pos p < index p)%Z →
  (-1 ≤ help_command_pos p < index p)%Z →
  index p' = (index p + Z.of_nat (length l))%Z ∧
  (-1 ≤ command_pos p' < index p')%Z ∧
  (-1 ≤ help_pos p' < index p')%Z ∧
  (-1 ≤ help_command_pos p' < index p')%Z.
Proof.
  induction l as [|arg rest IH]; intros p p'.
  - intros [= <-] ????. split_and!; cbn [length]; lia.
  - cbn [scan length].
    destruct (String.eqb arg "bash-completion" && (help_command_pos p =? -1)%Z);
      [done|].
    intros Hscan ????.
    repeat match type of Hscan with
           | context [bool_decide ?P] => destruct (bool_decide P)
           | context [String.eqb ?x ?y] => destruct (String.eqb x y)
           | context [(?x =? ?y)%Z] => destruct (Z.eqb_spec x y)
           end;
      apply IH in Hscan;
      cbn [index command_pos help_pos help_command_pos] in *;
      try lia;
      destruct Hscan as (Hi & ? & ? & ?); rewrite Hi in *;
      split_and!; lia.
Qed.

(** After the scan the two rewritings of the argument vector find the
    positions they index: they never fail. *)
Lemma rewrite_argv_after_scan names argv p :
  scan names argv start = Some p → ∃ argv', rewrite_argv p argv = Ok argv'.
Proof.
  intros Hscan. apply scan_bounds in Hscan; cbn [index command_pos help_pos
    help_command_pos] in *; [|lia..].
  destruct Hscan as (Hi & Hc & Hh & Hw). rewrite Z.add_0_l in Hi.
  unfold rewrite_argv.
  destruct ((-1 <? command_pos p)%Z && (command_pos p <? help_pos p)%Z) eqn:Hfirst.
  - apply andb_true_iff in Hfirst as [H1 H2]. apply Z.ltb_lt in H1.
    destruct (lookup_lt_is_Some_2 argv (Z.to_nat (command_pos p))) as [name ->];
      [lia|].
    assert ((command_pos p =? -1)%Z = false) as -> by (apply Z.eqb_neq; lia).
    rewrite andb_false_r. eauto.
  - destruct ((-1 <? help_command_pos p)%Z && (command_pos p =? -1)%Z) eqn:Hsecond;
      [|eauto].
    apply andb_true_iff in Hsecond as [H1 _]. apply Z.ltb_lt in H1.
    rewrite bool_decide_eq_true_2 by lia. eauto.
Qed.

(** C2, as the code has it.  For every invocation the status the process
    ends with is decided by the first stage that does not return, at any
    verbosity: 1 when the stage ends in an exception under [Exception] (the
    global options, an unknown command, a rejected authentication, a
    command that cannot be built, a [CommandError], a name-resolution
    failure, a client error, any other runtime error), 130 when it ends in
    [KeyboardInterrupt], and the status carried by [SystemExit] when the
    argument parser leaves through it (2 for a usage error).  When every
    stage returns, the status is that of the value returned: 0 for the
    completion listing, and what the command or the interactive loop
    returns (0 for a command that succeeds).  The rewriting of the argument
    vector that precedes the global options never fails. *)
Theorem exit_code_of_invocation self argv :
  exit_code self argv =
    match scan (commands self) argv start with
    | None =>
        match bash_completion self with
        | Ok _ => 0%Z
        | Raise e => failure_status e
        end
    | Some p =>
        match rewrite_argv p argv with
        | Raise e => failure_status e
        | Ok argv' =>
            match parser_parse_known_args self argv' with
            | Raise e => failure_status e
            | Ok (opts, []) =>
                match authenticate self opts with
                | Raise e => failure_status e
                | Ok _ => status_of (interact self).2
                end
            | Ok (opts, remainder) =>
                match find_command self remainder with
                | Raise e => failure_status e
                | Ok (cmd_factory, cmd_name, sub_argv) =>
                    match (if decide (cmd_name = "help") then Ok tt
                           else authenticate self opts) with
                    | Raise e => failure_status e
                    | Ok _ =>
                        match cmd_factory opts with
                        | Raise e => failure_status e
                        | Ok cmd =>
                            match get_parser cmd ("neutron " +:+ cmd_name) with
                            | Raise e => failure_status e
                            | Ok cmd_parser =>
                                status_of (command_run cmd cmd_parser sub_argv).2
                            end
                        end
                    end
                end
            end
        end
    end ∧
  (∀ p, scan (commands self) argv start = Some p →
        ∃ argv', rewrite_argv p argv = Ok argv').
Proof.
  split; [|intros p; apply rewrite_argv_after_scan].
  rewrite exit_code_of_run. unfold NeutronShell_run.
  destruct (scan (commands self) argv start) as [p|].
  - unfold lift, ret, bind, try_except, run_except.
    destruct (rewrite_argv p argv) as [argv'|e]; [|by destruct e].
    destruct (parser_parse_known_args self argv') as [[opts remainder]|e];
      [|by destruct e].
    cbn -[run_subcommand initialize_app].
    destruct remainder as [|arg rest].
    + rewrite bool_decide_eq_true_2 by done.
      unfold initialize_app, authenticate_user, lift, ret, bind, emit.
      rewrite orb_true_l.
      destruct (authenticate self opts) as [[]|e]; cbn.
      * by destruct (interact self) as [t [v|e]].
      * destruct e; cbn; try done;
          by destruct (DEBUG_LEVEL <=? verbose_level opts)%Z.
    + rewrite bool_decide_eq_false_2 by done.
      unfold initialize_app, authenticate_user, run_subcommand,
        lift, ret, bind, emit, try_except.
      destruct (find_command self (arg :: rest))
        as [[[cmd_factory cmd_name] sub_argv]|e].
      * cbn [orb].
        assert (∀ A (x y : A),
                  (if negb (bool_decide (Some cmd_name = Some "help")) then x else y) =
                  (if decide (cmd_name = "help") then y else x)) as Hhelp.
        { intros A x y. destruct (decide (cmd_name = "help")) as [->|Hne].
          - by rewrite bool_decide_eq_true_2.
          - rewrite bool_decide_eq_false_2; [done|congruence]. }
        rewrite Hhelp. clear Hhelp.
        destruct (decide (cmd_name = "help")) as [_|_];
          [|destruct (authenticate self opts) as [[]|e]]; cbn;
          try (destruct e; cbn; try done;
               by destruct (DEBUG_LEVEL <=? verbose_level opts)%Z);
          (destruct (cmd_factory opts) as [cmd|e]; cbn; [|by destruct e]);
          (destruct (get_parser cmd ("neutron " +:+ cmd_name)) as [cmd_parser|e]; cbn;
           [|destruct e; cbn; try done;
             by destruct (DEBUG_LEVEL <=? verbose_level opts)%Z]);
          (destruct (command_run cmd cmd_parser sub_argv) as [t [v|e]]; cbn; [done|]);
          destruct e; cbn; try done;
            by destruct (DEBUG_LEVEL <=? verbose_level opts)%Z.
      * destruct e; cbn; try done;
          by destruct (DEBUG_LEVEL <=? verbose_level opts)%Z.
  - unfold lift, ret, bind, emit, try_except, run_except.
    destruct (bash_completion self) as [text|e]; cbn; [done|by destruct e].
Qed.

Lemma trace_split_elem (x : event) l pre post : l = pre ++ x :: post → x ∈ l.
Proof. intros ->. apply elem_of_app. right. apply list_elem_of_here. Qed.

Lemma authenticate_first (x : event) t pre post :
  x ≠ Authenticate → Authenticate :: t = pre ++ x :: post → Authenticate ∈ pre.
Proof.
  intros Hx. destruct pre as [|y pre]; cbn.
  - intros [= <-]. done.
  - intros [= <- _]. apply list_elem_of_here.
Qed.

(** Closes a goal whose hypothesis finds an event in a trace that does not
    hold it. *)
Ltac absent_event H :=
  exfalso; apply trace_split_elem in H;
  repeat (apply elem_of_cons in H as [H|H]; [discriminate H|]);
  by apply elem_of_nil in H.

(** What [initialize_app] does: the authentication, whose outcome is its
    own, unless resolving the command failed or the command is [help]. *)
Lemma initialize_app_cases self opts interactive_mode remainder :
  initialize_app self opts interactive_mode remainder =
    ([Authenticate], authenticate self opts) ∨
  (∃ e, initialize_app self opts interactive_mode remainder = ([], Raise e)) ∨
  (initialize_app self opts interactive_mode remainder = ([], Ok tt) ∧
   interactive_mode = false ∧
   ∃ cmd_factory sub_argv,
     find_command self remainder = Ok (cmd_factory, "help", sub_argv)).
Proof.
  unfold initialize_app, authenticate_user, lift, ret, bind, emit.
  destruct remainder as [|arg rest].
  - left. rewrite bool_decide_eq_false_2 by done.
    rewrite orb_true_r. by destruct (authenticate self opts).
  - destruct (find_command self (arg :: rest)) as [[[cmd_factory cmd_name] sub_argv]|e];
      [|right; left; eauto].
    destruct interactive_mode; cbn [orb].
    + left. by destruct (authenticate self opts).
    + case_bool_decide as Hhelp; cbn [negb].
      * right; right. injection Hhelp as ->. eauto.
      * left. by destruct (authenticate self opts).
Qed.

(** C7: a command is run only after the identity provider has accepted the
    user, the help command excepted: whenever a command is run, the global
    options were parsed and either the command is [help] or the
    authentication came before it and succeeded; and whenever the command
    the arguments resolve to is not [help], initialising the application is
    the authentication, and fails when it fails. *)
Theorem authenticate_before_command self argv :
  (∀ pre ns vs post,
     (shell_run self argv).1 = pre ++ RunCommand ns vs :: post →
     ∃ p argv' opts remainder,
       scan (commands self) argv start = Some p ∧
       rewrite_argv p argv = Ok argv' ∧
       parser_parse_known_args self argv' = Ok (opts, remainder) ∧
       ((authenticate self opts = Ok tt ∧ Authenticate ∈ pre) ∨
        ∃ cmd_factory sub_argv,
          find_command self remainder = Ok (cmd_factory, "help", sub_argv))) ∧
  (∀ opts interactive_mode remainder cmd_factory cmd_name sub_argv,
     remainder ≠ [] →
     find_command self remainder = Ok (cmd_factory, cmd_name, sub_argv) →
     cmd_name ≠ "help" →
     initialize_app self opts interactive_mode remainder =
       ([Authenticate], authenticate self opts)).
Proof.
  split.
  - intros pre ns vs post Htrace.
    unfold NeutronShell_run in Htrace.
    destruct (scan (commands self) argv _) as [p|] eqn:Hscan.
    + unfold lift, ret, bind, try_except, run_except in Htrace.
      destruct (rewrite_argv p argv) as [argv'|e] eqn:Hrw.
      * destruct (parser_parse_known_args self argv') as [[opts remainder]|e] eqn:Hparse.
        -- cbn -[run_subcommand initialize_app] in Htrace.
           exists p, argv', opts, remainder. split_and!; [done..|].
           destruct (initialize_app_cases self opts (bool_decide (remainder = [])) remainder)
             as [Hauth|[[e He]|(Hinit & Hmode & cmd_factory & sub_argv & Hfind)]].
           ++ left. rewrite Hauth in Htrace.
              destruct (authenticate self opts) as [[]|e].
              ** split; [done|].
                 cbn -[run_subcommand] in Htrace.
                 destruct (bool_decide (remainder = []));
                   [destruct (interact self) as [t r]
                   |destruct (sub_run self opts false remainder) as [t r]];
                   cbn in Htrace;
                   (eapply authenticate_first; [|exact Htrace]; done).
              ** destruct (is_Exception e); [destruct (DEBUG_LEVEL <=? verbose_level opts)%Z|];
                   cbn in Htrace; absent_event Htrace.
           ++ rewrite He in Htrace.
              destruct (is_Exception e); [destruct (DEBUG_LEVEL <=? verbose_level opts)%Z|];
                cbn in Htrace; absent_event Htrace.
           ++ right. by exists cmd_factory, sub_argv.
        -- destruct (is_Exception e); cbn in Htrace; absent_event Htrace.
      * destruct (is_Exception e); cbn in Htrace; absent_event Htrace.
    + unfold lift, ret, bind, emit, try_except, run_except in Htrace.
      destruct (bash_completion self) as [text|e]; cbn in Htrace.
      * absent_event Htrace.
      * destruct (is_Exception e); cbn in Htrace; absent_event Htrace.
  - intros opts interactive_mode remainder cmd_factory cmd_name sub_argv
      Hrem Hfind Hname.
    destruct (initialize_app_cases self opts interactive_mode remainder)
      as [Hauth|[[e He]|(_ & _ & f & sub & Hhelp)]]; [done| |congruence].
    exfalso. revert He.
    unfold initialize_app, authenticate_user, lift, ret, bind, emit.
    destruct remainder as [|arg rest]; [done|]. rewrite Hfind.
    destruct (_ || _); [by destruct (authenticate self opts)|done].
Qed.

End ShellProperties.

Lemma exit_code_usage_error_counterexample :
  parse_known_args (CreateRouter_add_known_arguments CreateCommand_get_parser) [] =
    Raise (SystemExit (VInt 2)) ∧
  DemoShell.main ["router-create"] =
    ([ Authenticate; ParseKnownArgs [];
       Print stderr "Try 'neutron help router-create' for more information." ],
     Raise (SystemExit (VInt 2))) ∧
  DemoShell.exit_code ["router-create"] = 2%Z ∧
  DemoShell.exit_code ["router-create"] ≠ 1%Z.
Proof.
  split_and!.
  - vm_compute. reflexivity.
  - vm_compute. reflexivity.
  - vm_compute. reflexivity.
  - vm_compute. discriminate.
Qed.

Lemma exit_code_of_invocation_witness :
  DemoShell.exit_code ["router-gateway-clear"; "myrouter"] = 0%Z ∧
  DemoShell.exit_code ["router-gateway-clear"; "ghost"] = 1%Z ∧
  DemoShell.exit_code ["no-such-command"] = 1%Z ∧
  DemoShell.exit_code ["--debug"; "--debug"; "no-such-command"] = 1%Z ∧
  process_exit_code DemoShell.is_valid_cidr DemoShell.is_NeutronClientException
    (DemoShell.unauthenticated_shell (ClientError 401 "Unauthorized"))
    ["router-gateway-clear"; "myrouter"] = 1%Z ∧
  process_exit_code DemoShell.is_valid_cidr DemoShell.is_NeutronClientException
    (DemoShell.unauthenticated_shell KeyboardInterrupt)
    ["router-gateway-clear"; "myrouter"] = 130%Z ∧
  DemoShell.exit_code ["router-create"] = 2%Z ∧
  DemoShell.exit_code ["bash-completion"] = 0%Z.
Proof.
  unfold DemoShell.exit_code.
  split_and!;
    (refine (eq_trans (proj1 (exit_code_of_invocation _ _ _ _)) _);
     vm_compute; reflexivity).
Defined.

Lemma authenticate_before_command_witness :
  let argv := ["router-gateway-clear"; "myrouter"] in
  let pre := [Authenticate; ParseKnownArgs ["myrouter"]] in
  (initialize_app DemoShell.shell {| verbose_level := 1 |} false argv =
     ([Authenticate], Ok tt)) ∧
  (∃ p argv' opts remainder,
     scan (commands DemoShell.shell) argv
       {| index := 0; command_pos := -1; help_pos := -1;
          help_command_pos := -1 |} = Some p ∧
     rewrite_argv p argv = Ok argv' ∧
     parser_parse_known_args DemoShell.shell argv' = Ok (opts, remainder) ∧
     ((authenticate DemoShell.shell opts = Ok tt ∧ Authenticate ∈ pre) ∨
      ∃ cmd_factory sub_argv,
        find_command DemoShell.shell remainder = Ok (cmd_factory, "help", sub_argv))).
Proof.
  intros argv pre.
  destruct (authenticate_before_command DemoShell.is_valid_cidr DemoShell.shell argv)
    as [Hbefore Hinit].
  split.
  - apply (Hinit {| verbose_level := 1 |} false argv
             (λ _, Ok DemoShell.RemoveGatewayRouter) "router-gateway-clear" ["myrouter"]).
    + discriminate.
    + reflexivity.
    + discriminate.
  - apply (Hbefore pre {[ "router" := VStr "myrouter" ]} []
             [ Request (list_resources "router" "myrouter");
               Request (remove_gateway_router "id-123");
               Print stdout "Removed gateway from router myrouter" ]).
    vm_compute. reflexivity.
Defined.

Example demo_rejected_user_runs_nothing :
  NeutronShell_run DemoShell.is_valid_cidr
    (DemoShell.unauthenticated_shell (ClientError 401 "Unauthorized"))
    ["router-gateway-clear"; "myrouter"] =
  ([Authenticate], Ok (VInt 1)).
Proof. vm_compute. reflexivity. Qed.

Example demo_help_needs_no_authentication :
  DemoShell.main ["help"; "router-create"] =
    ([ ParseKnownArgs ["router-create"]; RunCommand ∅ ["router-create"];
       Print stdout "usage: neutron ..." ],
     Ok (VInt 0)).
Proof. vm_compute. reflexivity. Qed.

Example demo_bare_help_is_global_help :
  DemoShell.main ["help"] = ([], Raise (SystemExit (VInt 0))).
Proof. vm_compute. reflexivity. Qed.

Example demo_help_after_command :
  rewrite_argv
    {| index := 2; command_pos := 0; help_pos := 1; help_command_pos := -1 |}
    ["router-create"; "-h"] = Ok ["help"; "router-create"].
Proof. reflexivity. Qed.

(** * Further properties of the code *)

(** ** router.py: the interface commands *)

Lemma split1_contains sep s :
  contains_char sep s = true →
  ∃ a b, split1 sep s = [a; b] ∧ s = a +:+ String sep b ∧
         contains_char sep a = false.
Proof.
  induction s as [|c rest IH]; cbn [contains_char split1]; [done|].
  destruct (Ascii.eqb_spec c sep) as [->|Hne].
  - intros _. by exists EmptyString, rest.
  - intros Hin. destruct (IH Hin) as (a & b & -> & -> & Ha).
    exists (String c a), b. split_and!; [done..|].
    cbn. destruct (Ascii.eqb_spec c sep); done.
Qed.

Section InterfaceProperties.

Context (py_str : value → string).
Context (find : neutron_client → string → string → M string).

(** The steps of [RouterInterfaceCommand.run] once INTERFACE has been read
    as a resource word and a value. *)
Local Abbreviation pipeline self client router resource v :=
  (_router_id <- find client "router" router ;;
   _interface_id <- find client resource v ;;
   portinfo <- call_api (RouterInterfaceCommand := self) client _router_id
                 (VDict {[ resource +:+ "_id" := VStr _interface_id ]}) ;;
   message <- lift (success_message (RouterInterfaceCommand := self) router portinfo) ;;
   emit (Print stdout message) ;;;
   ret VNone).

(** X1: every INTERFACE string is accepted.  It is cut at its first [=]
    into a resource word and a value, or taken whole as a subnet when it
    has no [=]; the command then resolves the router, resolves the value,
    calls the API and prints, and never fails on the form of INTERFACE. *)
Theorem interface_always_read self client router interface :
  ∃ resource v,
    ((interface = resource +:+ "=" +:+ v ∧ contains_char "=" resource = false) ∨
     (contains_char "=" interface = false ∧ resource = "subnet" ∧ v = interface)) ∧
    RouterInterfaceCommand_run find self client
      {| ia_router := router; ia_interface := interface |} =
    pipeline self client router resource v.
Proof.
  destruct (contains_char "=" interface) eqn:Hin.
  - destruct (split1_contains _ _ Hin) as (a & b & Hsplit & -> & Ha).
    exists a, b. split; [by left|]. by apply interface_run_explicit.
  - exists "subnet", interface. split; [by right|].
    unfold RouterInterfaceCommand_run. cbn [ia_interface ia_router].
    by rewrite Hin, bind_ret_l.
Qed.

(** X2: an INTERFACE without [=] means a subnet: [ROUTER SUBNET] and
    [ROUTER subnet=SUBNET] run the same. *)
Theorem interface_bare_is_subnet self client router interface :
  contains_char "=" interface = false →
  RouterInterfaceCommand_run find self client
    {| ia_router := router; ia_interface := interface |} =
  RouterInterfaceCommand_run find self client
    {| ia_router := router; ia_interface := "subnet=" +:+ interface |}.
Proof.
  intros Hin.
  change ("subnet=" +:+ interface) with ("subnet" +:+ "=" +:+ interface).
  rewrite interface_run_explicit by done.
  unfold RouterInterfaceCommand_run. cbn [ia_interface ia_router].
  by rewrite Hin, bind_ret_l.
Qed.

(** X3: [router-interface-delete ROUTER port=PORT] calls remove-interface
    on the resolved router with body [{"port_id": P}] and prints the
    removal message with the router as typed, whatever the call returns. *)
Theorem remove_interface_port_scenario
    client router port (t1 t2 : list event) (R P : string) portinfo :
  find client "router" router = (t1, Ok R) →
  find client "port" port = (t2, Ok P) →
  answer_remove_interface_router client R (VDict {[ "port_id" := VStr P ]}) = Ok portinfo →
  RouterInterfaceCommand_run find RemoveInterfaceRouter client
      {| ia_router := router; ia_interface := "port=" +:+ port |} =
    (t1 ++ t2 ++
       [ Request (remove_interface_router R (VDict {[ "port_id" := VStr P ]}));
         Print stdout ("Removed interface from router " +:+ router +:+ ".") ],
     Ok VNone).
Proof.
  intros Hr Hp Hanswer.
  change ("port=" +:+ port) with ("port" +:+ "=" +:+ port).
  rewrite interface_run_explicit by done.
  rewrite Hr. apply bind_ok_eq. rewrite Hp. apply bind_ok_eq.
  change ("port" +:+ "_id") with "port_id".
  cbn [call_api success_message RemoveInterfaceRouter].
  unfold client_remove_interface_router, emit, lift, ret, bind.
  by rewrite Hanswer.
Qed.

(** X4: when a resolution fails the command stops there: a router that
    does not resolve means the interface is not even looked up, and an
    interface that does not resolve means no API call and no message. *)
Theorem interface_resolution_failure_stops self client router resource v
    (t1 : list event) e :
  contains_char "=" resource = false →
  (find client "router" router = (t1, Raise e) →
   RouterInterfaceCommand_run find self client
     {| ia_router := router; ia_interface := resource +:+ "=" +:+ v |} =
   (t1, Raise e)) ∧
  (∀ R t2, find client "router" router = (t1, Ok R) →
   find client resource v = (t2, Raise e) →
   RouterInterfaceCommand_run find self client
     {| ia_router := router; ia_interface := resource +:+ "=" +:+ v |} =
   (t1 ++ t2, Raise e)).
Proof.
  intros Hres. rewrite interface_run_explicit by done. split.
  - by intros ->.
  - intros R t2 -> Hv. apply bind_ok_eq. by rewrite Hv.
Qed.

(** X5: when the add-interface call itself fails nothing is printed, and
    when it answers with something that has no [port_id] the interface has
    been added but the command ends in the lookup error ([KeyError] for a
    mapping without the key, [TypeError] for an answer that is no mapping)
    without printing. *)
Theorem add_interface_failures
    client router subnet (t1 t2 : list event) (R S : string) :
  find client "router" router = (t1, Ok R) →
  find client "subnet" subnet = (t2, Ok S) →
  let request := Request (add_interface_router R (VDict {[ "subnet_id" := VStr S ]})) in
  let outcome := RouterInterfaceCommand_run find (AddInterfaceRouter py_str) client
                   {| ia_router := router; ia_interface := "subnet=" +:+ subnet |} in
  (∀ e, answer_add_interface_router client R (VDict {[ "subnet_id" := VStr S ]}) = Raise e →
        outcome = (t1 ++ t2 ++ [request], Raise e)) ∧
  (∀ d, answer_add_interface_router client R (VDict {[ "subnet_id" := VStr S ]}) = Ok (VDict d) →
        d !! "port_id" = None →
        outcome = (t1 ++ t2 ++ [request], Raise (KeyError "port_id"))) ∧
  (∀ portinfo, answer_add_interface_router client R (VDict {[ "subnet_id" := VStr S ]}) = Ok portinfo →
        (∀ d, portinfo ≠ VDict d) →
        outcome = (t1 ++ t2 ++ [request], Raise TypeError)).
Proof.
  intros Hr Hs request outcome. subst request outcome.
  change ("subnet=" +:+ subnet) with ("subnet" +:+ "=" +:+ subnet).
  rewrite interface_run_explicit by done.
  rewrite Hr, Hs. change ("subnet" +:+ "_id") with "subnet_id".
  cbn [call_api success_message AddInterfaceRouter].
  unfold client_add_interface_router, emit, lift, ret, bind.
  split_and!.
  - by intros e ->.
  - intros d -> Hd. cbn [getitem]. by rewrite Hd.
  - intros portinfo -> Hnd. destruct portinfo; try done. by destruct (Hnd g).
Qed.

End InterfaceProperties.

(** ** router.py: setting the gateway *)

Section SetGatewayProperties.

Context (find : neutron_client → string → string → M string).
Context (add_gateway : neutron_client → string → value → M value).

Local Abbreviation resolve := (resolve_fixed_ips find).
Local Abbreviation gateway_run := (SetGatewayRouter_run find add_gateway).

(** X6: the fixed IP specifications come out of the resolution in the same
    number and order and with the same keys; only a non-empty [subnet_id]
    is replaced, every other entry (an [ip_address], an empty or absent
    [subnet_id]) is passed on as given. *)
Theorem resolve_fixed_ips_shape client specs t ips :
  resolve client specs = (t, Ok ips) →
  length ips = length specs ∧
  ∀ i spec, specs !! i = Some spec →
    ∃ spec', ips !! i = Some spec' ∧
      dom spec' = dom spec ∧
      (∀ k, k ≠ "subnet_id" → spec' !! k = spec !! k) ∧
      (spec !! "subnet_id" = None ∨ spec !! "subnet_id" = Some "" → spec' = spec).
Proof.
  revert t ips. induction specs as [|spec0 specs IH]; intros t ips; cbn [resolve_fixed_ips].
  - intros [= <- <-]. split; [done|]. by intros i spec.
  - unfold bind at 1.
    destruct (resolve_fixed_ip find client spec0) as [t0 [spec0'|e]] eqn:H0; [|done].
    unfold bind.
    destruct (resolve client specs) as [t1 [ips1|e]] eqn:H1; [|done].
    cbn. intros [= <- <-].
    destruct (IH _ _ eq_refl) as [Hlen Hall].
    split; [by cbn; rewrite Hlen|].
    intros [|i] spec; cbn; [|by apply Hall].
    intros [= ->]. exists spec0'. split; [done|].
    revert H0. unfold resolve_fixed_ip, ret, bind.
    destruct (spec !! "subnet_id") as [name|] eqn:Hname.
    + destruct (String.eqb_spec name "") as [->|Hne]; cbn [negb].
      * intros [= <- <-]. eauto.
      * destruct (find client "subnet" name) as [t2 [subnet_id|e]]; [|done].
        intros [= <- <-]. split_and!.
        -- apply dom_insert_lookup_L. eauto.
        -- intros k Hk. by rewrite lookup_insert_ne.
        -- intros [?|[= ?]]; done.
    + intros [= <- <-]. eauto.
Qed.

(** X7: with neither [--disable-snat] nor [--fixed-ip] the gateway is set
    with the body [{"network_id": N}] and nothing else, and the message
    names the router as typed. *)
Theorem set_gateway_plain client router network fixed_ip
    (t1 t2 t3 : list event) (R N : string) answer :
  fixed_ip = None ∨ fixed_ip = Some [] →
  find client "router" router = (t1, Ok R) →
  find client "network" network = (t2, Ok N) →
  add_gateway client R (VDict {[ "network_id" := VStr N ]}) = (t3, Ok answer) →
  gateway_run client
    {| gs_router := router; gs_external_network := network;
       gs_disable_snat := false; gs_fixed_ip := fixed_ip |} =
  (t1 ++ t2 ++ t3 ++ [Print stdout ("Set gateway for router " +:+ router)],
   Ok VNone).
Proof.
  intros Hfixed Hr Hn Hadd. unfold SetGatewayRouter_run.
  cbn [gs_router gs_external_network gs_disable_snat gs_fixed_ip].
  rewrite Hr. apply bind_ok_eq. rewrite Hn. apply bind_ok_eq.
  assert (match fixed_ip with
          | Some ((_ :: _) as specs) =>
              ips <- resolve client specs ;;
              ret (<["external_fixed_ips" := VList (fixed_ip_value <$> ips)]>
                     ({[ "network_id" := VStr N ]} : gmap string value))
          | _ => ret {[ "network_id" := VStr N ]}
          end = ret {[ "network_id" := VStr N ]}) as ->
    by (by destruct Hfixed as [->| ->]).
  rewrite bind_ret_l, Hadd. unfold emit, ret, bind. cbn.
  done.
Qed.

(** Both sides run the same gateway call; what is left is list algebra. *)
Ltac gateway_eq :=
  unfold ret, emit, bind; cbn beta match;
  repeat match goal with
         | H : resolve_fixed_ips _ _ _ = _ |- _ => rewrite H
         end;
  repeat match goal with
         | |- context [add_gateway ?c ?r ?b] =>
             destruct (add_gateway c r b) as [? [?|?]]
         end; cbn;
  rewrite ?app_nil_r, <-?app_assoc; reflexivity.

(** The keys of a body built by inserting under the three field names. *)
Ltac body_keys Hk :=
  repeat (apply lookup_insert_Some in Hk as [[<- _]|[_ Hk]];
          [repeat first [apply list_elem_of_here | apply list_elem_of_further]|]);
  first [ apply lookup_singleton_Some in Hk as [<- _];
          repeat first [apply list_elem_of_here | apply list_elem_of_further]
        | by rewrite lookup_empty in Hk ].

(** X8: the body handed to the gateway call has [network_id], has
    [enable_snat] only under [--disable-snat] and then as false, has
    [external_fixed_ips] only when some [--fixed-ip] was given, and has no
    other key. *)
Theorem set_gateway_body client parsed_args (t1 t2 : list event) (R N : string) :
  find client "router" (gs_router parsed_args) = (t1, Ok R) →
  find client "network" (gs_external_network parsed_args) = (t2, Ok N) →
  (∃ t3 e, gateway_run client parsed_args = (t1 ++ t2 ++ t3, Raise e) ∧
           ∃ specs, gs_fixed_ip parsed_args = Some specs ∧
                    resolve client specs = (t3, Raise e)) ∨
  ∃ t3 body,
    gateway_run client parsed_args =
      ((t1 ++ t2 ++ t3, Ok tt) ;;;
       add_gateway client R (VDict body) ;;;
       emit (Print stdout ("Set gateway for router " +:+ gs_router parsed_args)) ;;;
       ret VNone) ∧
    body !! "network_id" = Some (VStr N) ∧
    body !! "enable_snat" =
      (if gs_disable_snat parsed_args then Some (VBool false) else None) ∧
    (is_Some (body !! "external_fixed_ips") ↔
       ∃ spec specs, gs_fixed_ip parsed_args = Some (spec :: specs)) ∧
    (∀ k, is_Some (body !! k) →
       k ∈ ["network_id"; "enable_snat"; "external_fixed_ips"]).
Proof.
  intros Hr Hn. unfold SetGatewayRouter_run. rewrite Hr, Hn.
  pose (plain := ({[ "network_id" := VStr N ]} : gmap string value)).
  pose (no_snat := (<["enable_snat" := VBool false]> plain)).
  destruct (gs_fixed_ip parsed_args) as [[|spec specs]|] eqn:Hfixed;
    [|destruct (resolve client (spec :: specs)) as [t3 [ips|e]] eqn:Hres|].
  - right. exists [].
    destruct (gs_disable_snat parsed_args);
      [exists no_snat|exists plain]; (split; [subst plain no_snat; gateway_eq|]);
      (split_and!; [done|done|split; [by intros [? ?]|by intros (? & ? & ?)]|]);
      intros k [v Hk]; body_keys Hk.
  - right. exists t3.
    destruct (gs_disable_snat parsed_args);
      [exists (<["external_fixed_ips" := VList (fixed_ip_value <$> ips)]> no_snat)
      |exists (<["external_fixed_ips" := VList (fixed_ip_value <$> ips)]> plain)];
      (split; [subst plain no_snat; gateway_eq|]);
      (split_and!; [done|done|split; [eauto|by rewrite lookup_insert_eq]|]);
      intros k [v Hk]; body_keys Hk.
  - left. exists t3, e. split; [|eauto]. unfold ret, bind. by cbn beta match.
  - right. exists [].
    destruct (gs_disable_snat parsed_args);
      [exists no_snat|exists plain]; (split; [subst plain no_snat; gateway_eq|]);
      (split_and!; [done|done|split; [by intros [? ?]|by intros (? & ? & ?)]|]);
      intros k [v Hk]; body_keys Hk.
Qed.

End SetGatewayProperties.

(** ** shell.py: env *)

(** X9: [env] gives the value of the first listed variable that is set to
    a non-empty string, a variable set to the empty string counting as
    unset; when there is none it gives the [default] keyword, or the empty
    string without one. *)
Theorem env_first_defined environ _vars default :
  (∀ pre v post text,
     _vars = pre ++ v :: post →
     Forall (λ u, environ !! u = None ∨ environ !! u = Some "") pre →
     environ !! v = Some text → text ≠ "" →
     env environ _vars default = VStr text) ∧
  (Forall (λ u, environ !! u = None ∨ environ !! u = Some "") _vars →
   env environ _vars default =
     match default with Some d => d | None => VStr "" end).
Proof.
  split.
  - intros pre v post text -> Hpre Hv Htext.
    induction Hpre as [|u pre [Hu|Hu] _ IH]; cbn [app env].
    + rewrite Hv. by destruct (String.eqb_spec text "").
    + by rewrite Hu.
    + by rewrite Hu.
  - induction 1 as [|u rest [Hu|Hu] _ IH]; cbn [env]; [done|by rewrite Hu..].
Qed.

(** ** shell.py: main and the dispatcher *)

Section DispatcherProperties.

Context (is_valid_cidr : string → bool).
Context (is_NeutronClientException : exn → bool).

Local Abbreviation the_main := (main is_valid_cidr is_NeutronClientException).
Local Abbreviation shell_run := (NeutronShell_run is_valid_cidr).
Local Abbreviation sub_run := (run_subcommand is_valid_cidr).
Local Abbreviation command_run := (run_command is_valid_cidr).

(** X10: [main] lets no exception out except [SystemExit]: every
    exception under [Exception] becomes the return value 1 and
    [KeyboardInterrupt] the return value 130. *)
Theorem main_only_system_exit_escapes self argv :
  (∀ e, (the_main self argv).2 = Raise e → ∃ arg, e = SystemExit arg) ∧
  (∀ e, (shell_run self argv).2 = Raise e → is_Exception e = true →
        (the_main self argv).2 = Ok (VInt 1)) ∧
  ((shell_run self argv).2 = Raise KeyboardInterrupt →
   (the_main self argv).2 = Ok (VInt 130)).
Proof.
  unfold main, try_except.
  destruct (shell_run self argv) as [t [v|e0]]; cbn [snd].
  - split_and!; done.
  - split_and!.
    + destruct e0; cbn; try destruct (is_NeutronClientException _); cbn;
        intros e [= <-] || intros e [=]; eauto.
    + intros e [= <-] He. destruct e0; try done;
        cbn; by destruct (is_NeutronClientException _).
    + by intros [= ->].
Qed.


End DispatcherProperties.

(** ** shell.py: the scan that opens NeutronShell.run *)

Lemma first_pos_cons P x l :
  first_pos P (x :: l) =
    if P x then 0%Z
    else if (first_pos P l =? -1)%Z then (-1)%Z else (first_pos P l + 1)%Z.
Proof.
  unfold first_pos. cbn [list_find].
  destruct (P x) eqn:Hx.
  - by rewrite decide_True.
  - rewrite decide_False by done.
    destruct (list_find _ l) as [[i y]|]; cbn; [|done].
    destruct (Z.eqb_spec (Z.of_nat i) (-1)); lia.
Qed.

Lemma first_pos_range P l : (-1 ≤ first_pos P l < Z.of_nat (length l))%Z.
Proof.
  induction l as [|x l IH]; [done|].
  rewrite first_pos_cons. cbn [length].
  destruct (P x); [lia|].
  destruct (Z.eqb_spec (first_pos P l) (-1)); lia.
Qed.


Lemma first_pos_none P l :
  first_pos P l = (-1)%Z ↔ Forall (λ x, P x = false) l.
Proof.
  induction l as [|x l IH]; [done|].
  rewrite first_pos_cons, Forall_cons.
  pose proof (first_pos_range P l) as Hrange.
  destruct (P x).
  - split; [lia|by intros [? _]].
  - destruct (Z.eqb_spec (first_pos P l) (-1)) as [Heq|Hne].
    + split; [|done]. intros _. split; [done|by apply IH].
    + split; [lia|]. intros [_ Hall]. by apply IH in Hall.
Qed.

Lemma scan_positions_from names l : ∀ p p',
  (0 ≤ index p)%Z →
  scan names l p = Some p' →
  index p' = (index p + Z.of_nat (length l))%Z ∧
  command_pos p' =
    (if (command_pos p =? -1)%Z
     then if (first_pos (is_command names) l =? -1)%Z then (-1)%Z
          else (index p + first_pos (is_command names) l)%Z
     else command_pos p) ∧
  help_pos p' =
    (if (help_pos p =? -1)%Z
     then if (first_pos (is_help_option names) l =? -1)%Z then (-1)%Z
          else (index p + first_pos (is_help_option names) l)%Z
     else help_pos p) ∧
  help_command_pos p' =
    (if (help_command_pos p =? -1)%Z
     then if (first_pos (is_help_word names) l =? -1)%Z then (-1)%Z
          else (index p + first_pos (is_help_word names) l)%Z
     else help_command_pos p).
Proof.
  induction l as [|arg rest IH]; intros p p'.
  - intros _ [= <-]. unfold first_pos. cbn.
    split_and!; [lia|..];
      by match goal with
         | |- context [(?a =? ?b)%Z] => destruct (Z.eqb_spec a b)
         end.
  - cbn [scan].
    destruct (String.eqb arg "bash-completion" && (help_command_pos p =? -1)%Z);
      [done|].
    intros Hindex Hscan. apply IH in Hscan; [|cbn [index];
      repeat (destruct (bool_decide _) || destruct (String.eqb _ _)
              || destruct (_ =? _)%Z); cbn [index]; lia].
    cbn [index command_pos help_pos help_command_pos] in Hscan.
    rewrite !first_pos_cons. unfold is_help_word, is_help_option, is_command.
    pose proof (first_pos_range (is_command names) rest).
    pose proof (first_pos_range (is_help_option names) rest).
    pose proof (first_pos_range (is_help_word names) rest).
    unfold is_help_word, is_help_option, is_command in *.
    destruct Hscan as (Hi & Hc & Hh & Hw). rewrite Hi, Hc, Hh, Hw. clear Hi Hc Hh Hw.
    cbn [length].
    split_and!;
      (destruct (bool_decide (arg ∈ names)); cbn [negb andb];
       [|destruct (bool_decide (arg ∈ ["-h"; "--help"])); cbn [negb andb];
         [|destruct (String.eqb arg "help")]]);
      repeat match goal with
             | |- context [(?a =? ?b)%Z] => destruct (Z.eqb_spec a b)
             | H : context [(?a =? ?b)%Z] |- _ => destruct (Z.eqb_spec a b)
             end;
      cbn [index command_pos help_pos help_command_pos] in *;
      lia.
Qed.

(** Splits on the tests the scan makes on one argument. *)
Ltac scan_cases :=
  repeat match goal with
         | |- context [bool_decide ?P] => destruct (bool_decide P)
         | |- context [String.eqb ?x ?y] => destruct (String.eqb x y)
         | |- context [(?x =? ?y)%Z] => destruct (Z.eqb_spec x y)
         end;
  cbn [index command_pos help_pos help_command_pos].

Lemma scan_none_from names l : ∀ p,
  (0 ≤ index p)%Z →
  scan names l p = None ↔
  help_command_pos p = (-1)%Z ∧
  ∃ pre post, l = pre ++ "bash-completion" :: post ∧
              Forall (λ a, is_help_word names a = false) pre.
Proof.
  induction l as [|arg rest IH]; intros p Hindex.
  - split; [done|]. intros (_ & pre & post & Hl & _). by destruct pre.
  - cbn [scan].
    destruct (String.eqb_spec arg "bash-completion") as [->|Hne]; cbn [andb].
    + destruct (Z.eqb_spec (help_command_pos p) (-1)) as [Hw|Hw].
      * split; [|done]. intros _. split; [done|]. by exists [], rest.
      * rewrite IH by (cbn [index]; scan_cases; lia).
        split; [|by intros [? _]]. intros [Hw' _]. exfalso. revert Hw'.
        scan_cases; lia.
    + rewrite IH by (cbn [index]; scan_cases; lia).
      split.
      * intros (Hw & pre & post & -> & Hpre).
        assert (help_command_pos p = (-1)%Z ∧ is_help_word names arg = false)
          as [Hp Harg].
        { revert Hw. unfold is_help_word, is_command.
          destruct (bool_decide (arg ∈ names)); cbn [negb andb];
            [|destruct (bool_decide (arg ∈ ["-h"; "--help"])); cbn [negb andb];
              [|destruct (String.eqb arg "help")]];
            scan_cases; intros; first [lia|split; [lia|done]]. }
        split; [done|]. exists (arg :: pre), post. split; [done|].
        apply Forall_cons. by split.
      * intros (Hw & pre & post & Hl & Hpre).
        destruct pre as [|a pre]; [by injection Hl as -> _|].
        injection Hl as <- ->. apply Forall_cons in Hpre as [Ha Hpre].
        split; [|by exists pre, post].
        revert Ha. unfold is_help_word, is_command.
        destruct (bool_decide (arg ∈ names)); cbn [negb andb];
          [|destruct (bool_decide (arg ∈ ["-h"; "--help"])); cbn [negb andb];
            [|destruct (String.eqb arg "help"); [done|]]];
          scan_cases; intros; lia.
Qed.

Lemma no_help_word names (l : list string) :
  Forall (λ a, is_help_word names a = false) l ↔ "help" ∉ l ∨ "help" ∈ names.
Proof.
  unfold is_help_word, is_command. induction l as [|a l IH].
  - split; [|done]. intros _. left. apply not_elem_of_nil.
  - rewrite Forall_cons, IH, not_elem_of_cons. split.
    + intros [Ha [Hl|Hn]]; [|by right].
      destruct (String.eqb_spec a "help") as [->|Hne]; [|by left].
      right. rewrite andb_true_r in Ha.
      destruct (bool_decide ("help" ∈ names)) eqn:Hin;
        [by apply bool_decide_eq_true_1 in Hin|done].
    + intros [[Hne Hl]|Hn].
      * split; [|by left].
        destruct (String.eqb_spec a "help") as [->|_]; [done|].
        by rewrite andb_false_r.
      * split; [|by right].
        destruct (String.eqb_spec a "help") as [->|_]; [|by rewrite andb_false_r].
        by rewrite (bool_decide_eq_true_2 _ Hn).
Qed.



Section ScanProperties.

Context (names : list string).

Local Abbreviation start :=
  {| index := 0; command_pos := -1; help_pos := -1; help_command_pos := -1 |}.

(** X12: after the scan, each position is that of the first argument of
    its kind, or -1 when there is none: the first command name; the first
    [-h] or [--help] that is no command name; the first word [help] that is
    no command name. *)
Theorem scan_positions argv p :
  scan names argv start = Some p →
  index p = Z.of_nat (length argv) ∧
  command_pos p = first_pos (is_command names) argv ∧
  help_pos p = first_pos (is_help_option names) argv ∧
  help_command_pos p = first_pos (is_help_word names) argv.
Proof.
  intros Hscan. apply scan_positions_from in Hscan; [|done].
  cbn [index command_pos help_pos help_command_pos] in Hscan.
  destruct Hscan as (-> & -> & -> & ->).
  change ((-1 =? -1)%Z) with true. cbn match.
  split_and!; [lia|..];
    match goal with
    | |- context [first_pos ?P argv] =>
        pose proof (first_pos_range P argv);
        destruct (Z.eqb_spec (first_pos P argv) (-1)); lia
    end.
Qed.

(** X13: the scan stops for the completion listing exactly when the
    argument vector holds [bash-completion] with no help word before it
    (the word [help] counts unless it is itself a command name). *)
Theorem scan_completion argv :
  scan names argv start = None ↔
  ∃ pre post, argv = pre ++ "bash-completion" :: post ∧
              ("help" ∉ pre ∨ "help" ∈ names).
Proof.
  rewrite scan_none_from by done. cbn [help_command_pos]. split.
  - intros (_ & pre & post & -> & Hpre). exists pre, post.
    split; [done|]. by apply no_help_word.
  - intros (pre & post & -> & Hpre). split; [done|]. exists pre, post.
    split; [done|]. by apply no_help_word.
Qed.


End ScanProperties.

(** ** shell.py: NeutronShell.run *)

Section RunProperties.

Context (is_valid_cidr : string → bool).

Local Abbreviation shell_run := (NeutronShell_run is_valid_cidr).
Local Abbreviation start :=
  {| index := 0; command_pos := -1; help_pos := -1; help_command_pos := -1 |}.

(** X15: [bash-completion] with no help word before it prints the
    completion words and returns 0 at once: the global options are not
    parsed, nothing is authenticated and no command is looked up, whatever
    else the command line holds. *)
Theorem run_completion self pre post text :
  "help" ∉ pre ∨ "help" ∈ commands self →
  bash_completion self = Ok text →
  NeutronShell_run is_valid_cidr self (pre ++ "bash-completion" :: post) =
    ([Print stdout text], Ok (VInt 0)).
Proof.
  intros Hpre Htext.
  assert (scan (commands self) (pre ++ "bash-completion" :: post) start = None)
    as Hscan.
  { apply scan_none_from; [done|]. split; [done|].
    exists pre, post. split; [done|]. by apply no_help_word. }
  unfold NeutronShell_run. rewrite Hscan.
  unfold lift, ret, bind, emit, try_except. by rewrite Htext.
Qed.



(** X18: with no command on the command line the shell authenticates and
    hands over to the interactive loop, whose outcome is that of [run]. *)
Theorem run_interactive self argv p argv' opts :
  scan (commands self) argv start = Some p →
  rewrite_argv p argv = Ok argv' →
  parser_parse_known_args self argv' = Ok (opts, []) →
  authenticate self opts = Ok tt →
  shell_run self argv = (Authenticate :: (interact self).1, (interact self).2).
Proof.
  intros Hscan Hrw Hparse Hauth.
  unfold NeutronShell_run. rewrite Hscan.
  unfold lift, ret, bind, try_except, run_except. rewrite Hrw, Hparse.
  cbn -[run_subcommand initialize_app].
  unfold initialize_app, authenticate_user, lift, ret, bind, emit.
  rewrite Hauth. cbn. by destruct (interact self).
Qed.


End RunProperties.

(** ** shell.py: the helpers *)








(** X21: the console handler never logs at INFO: at the verbosities 0 and
    1 (quiet and the default) it is set to WARNING with the plain message
    format, and at every other verbosity to DEBUG with the debug format. *)
Theorem console_levels (verbose_level : Z) :
  console_set_level verbose_level ≠ LOG_INFO ∧
  (console_set_level verbose_level = LOG_WARNING ↔
     verbose_level = 0%Z ∨ verbose_level = 1%Z) ∧
  (console_set_level verbose_level = LOG_DEBUG ↔
     verbose_level ≠ 0%Z ∧ verbose_level ≠ 1%Z) ∧
  (console_debug_format verbose_level = true ↔
     console_set_level verbose_level = LOG_DEBUG).
Proof.
  unfold console_set_level, console_debug_format, console_level,
    WARNING_LEVEL, INFO_LEVEL, DEBUG_LEVEL.
  destruct (decide (verbose_level = 0%Z)) as [->|H0].
  { rewrite lookup_insert_eq. split_and!; try done; split; try done; eauto;
      by intros [? ?]. }
  rewrite lookup_insert_ne by done.
  destruct (decide (verbose_level = 1%Z)) as [->|H1].
  { rewrite lookup_insert_eq. split_and!; try done; split; try done; eauto;
      by intros [? ?]. }
  rewrite lookup_insert_ne by done.
  destruct (decide (verbose_level = 2%Z)) as [->|H2].
  { rewrite lookup_singleton_eq. split_and!; try done; split; try done;
      by intros [?|?]. }
  rewrite lookup_singleton_ne by done.
  split_and!; try done; split; try done; by intros [?|?].
Qed.

Section CidrProperties.

Context (is_valid_cidr : string → bool).

Local Abbreviation first_cidr := (get_first_valid_cidr is_valid_cidr).

(** X22: [get_first_valid_cidr] gives the first value that is a valid
    CIDR, and nothing exactly when no value is one; removing what it gave
    from the values, as [run_command] does for the subnet creation command,
    takes out that very occurrence and leaves the other values in their
    order. *)
Theorem first_valid_cidr_removed value_specs :
  (first_cidr value_specs = None ↔
     Forall (λ value, is_valid_cidr value = false) value_specs) ∧
  (∀ cidr, first_cidr value_specs = Some cidr →
     ∃ pre post,
       value_specs = pre ++ cidr :: post ∧
       Forall (λ value, is_valid_cidr value = false) pre ∧
       is_valid_cidr cidr = true ∧
       list_remove cidr value_specs = pre ++ post).
Proof.
  unfold get_first_valid_cidr.
  induction value_specs as [|value rest [IHnone IHsome]].
  - split; [done|]. intros cidr. done.
  - destruct (is_valid_cidr value) eqn:Hvalue.
    + rewrite filter_cons_True by done. cbn [head list_remove]. split.
      * split; [done|]. intros Hall. apply Forall_cons in Hall as [Hv _].
        congruence.
      * intros cidr [= <-]. exists [], rest. rewrite String.eqb_refl.
        split_and!; done.
    + rewrite filter_cons_False by (rewrite Hvalue; done). split.
      * rewrite IHnone, Forall_cons. split; [done|by intros [_ ?]].
      * intros cidr Hcidr.
        destruct (IHsome cidr Hcidr) as (pre & post & -> & Hpre & Hvalid & Hremove).
        exists (value :: pre), post. split_and!; [done| |done|].
        -- apply Forall_cons. by split.
        -- cbn [list_remove app].
           destruct (String.eqb_spec value cidr) as [->|_]; [congruence|].
           by rewrite Hremove.
Qed.

End CidrProperties.

(** ** The properties on the demonstration deployment *)

Lemma interface_bare_is_subnet_witness :
  RouterInterfaceCommand_run Demo.find (AddInterfaceRouter Demo.str) Demo.client
    {| ia_router := "r1"; ia_interface := "s1" |} =
  RouterInterfaceCommand_run Demo.find (AddInterfaceRouter Demo.str) Demo.client
    {| ia_router := "r1"; ia_interface := "subnet=" +:+ "s1" |}.
Proof.
  exact (interface_bare_is_subnet Demo.find (AddInterfaceRouter Demo.str)
           Demo.client "r1" "s1" eq_refl).
Defined.

Lemma remove_interface_port_scenario_witness :
  RouterInterfaceCommand_run Demo.find RemoveInterfaceRouter Demo.client
    {| ia_router := "r1"; ia_interface := "port=" +:+ DemoRouter.port_id |} =
  ([Request (list_resources "router" "r1")] ++ [] ++
     [ Request (remove_interface_router "id-r1"
                  (VDict {[ "port_id" := VStr DemoRouter.port_id ]}));
       Print stdout ("Removed interface from router " +:+ "r1" +:+ ".") ],
   Ok VNone).
Proof.
  refine (remove_interface_port_scenario Demo.find Demo.client "r1"
            DemoRouter.port_id [Request (list_resources "router" "r1")] []
            "id-r1" DemoRouter.port_id VNone _ _ _);
    vm_compute; reflexivity.
Defined.

Lemma interface_resolution_failure_stops_witness :
  RouterInterfaceCommand_run Demo.find (AddInterfaceRouter Demo.str) Demo.client
    {| ia_router := "ghost"; ia_interface := "subnet" +:+ "=" +:+ "s1" |} =
  ([Request (list_resources "router" "ghost")], Raise (NotFound "ghost")) ∧
  RouterInterfaceCommand_run Demo.find (AddInterfaceRouter Demo.str) Demo.client
    {| ia_router := "r1"; ia_interface := "subnet" +:+ "=" +:+ "nosuch" |} =
  ([Request (list_resources "router" "r1")]
     ++ [Request (list_resources "subnet" "nosuch")],
   Raise (NotFound "nosuch")).
Proof.
  split.
  - refine (proj1 (interface_resolution_failure_stops Demo.find
                     (AddInterfaceRouter Demo.str) Demo.client "ghost" "subnet" "s1"
                     [Request (list_resources "router" "ghost")]
                     (NotFound "ghost") eq_refl) _).
    vm_compute; reflexivity.
  - refine (proj2 (interface_resolution_failure_stops Demo.find
                     (AddInterfaceRouter Demo.str) Demo.client "r1" "subnet" "nosuch"
                     [Request (list_resources "router" "r1")]
                     (NotFound "nosuch") eq_refl)
                  "id-r1" [Request (list_resources "subnet" "nosuch")] _ _);
      vm_compute; reflexivity.
Defined.

Lemma add_interface_failures_witness :
  let run answer :=
    RouterInterfaceCommand_run Demo.find (AddInterfaceRouter Demo.str)
      (DemoRouter.client_answering answer)
      {| ia_router := "r1"; ia_interface := "subnet=" +:+ "s1" |} in
  let requests :=
    [Request (list_resources "router" "r1")]
      ++ [Request (list_resources "subnet" "s1")]
      ++ [Request (add_interface_router "id-r1"
                     (VDict {[ "subnet_id" := VStr "id-s1" ]}))] in
  run (Raise (ClientError 409 "Conflict")) =
    (requests, Raise (ClientError 409 "Conflict")) ∧
  run (Ok (VDict ∅)) = (requests, Raise (KeyError "port_id")) ∧
  run (Ok VNone) = (requests, Raise TypeError).
Proof.
  intros run requests. subst run requests. cbv beta. split_and!.
  - refine (proj1 (add_interface_failures Demo.str Demo.find
                     (DemoRouter.client_answering (Raise (ClientError 409 "Conflict")))
                     "r1" "s1" [Request (list_resources "router" "r1")]
                     [Request (list_resources "subnet" "s1")] "id-r1" "id-s1" _ _)
                  (ClientError 409 "Conflict") _);
      vm_compute; reflexivity.
  - refine (proj1 (proj2 (add_interface_failures Demo.str Demo.find
                     (DemoRouter.client_answering (Ok (VDict ∅)))
                     "r1" "s1" [Request (list_resources "router" "r1")]
                     [Request (list_resources "subnet" "s1")] "id-r1" "id-s1" _ _))
                  ∅ _ _);
      vm_compute; reflexivity.
  - refine (proj2 (proj2 (add_interface_failures Demo.str Demo.find
                     (DemoRouter.client_answering (Ok VNone))
                     "r1" "s1" [Request (list_resources "router" "r1")]
                     [Request (list_resources "subnet" "s1")] "id-r1" "id-s1" _ _))
                  VNone _ _);
      [vm_compute; reflexivity..|done].
Defined.

Lemma resolve_fixed_ips_shape_witness :
  let ips : list (gmap string string) :=
    [ {[ "subnet_id" := "id-s1"; "ip_address" := "10.0.0.5" ]};
      {[ "ip_address" := "10.0.0.6" ]} ] in
  resolve_fixed_ips Demo.find Demo.client DemoRouter.fixed_ips =
    ([Request (list_resources "subnet" "s1")], Ok ips) ∧
  length ips = length DemoRouter.fixed_ips ∧
  ∀ i spec, DemoRouter.fixed_ips !! i = Some spec →
    ∃ spec', ips !! i = Some spec' ∧
      dom spec' = dom spec ∧
      (∀ k, k ≠ "subnet_id" → spec' !! k = spec !! k) ∧
      (spec !! "subnet_id" = None ∨ spec !! "subnet_id" = Some "" → spec' = spec).
Proof.
  cbv zeta.
  assert (resolve_fixed_ips Demo.find Demo.client DemoRouter.fixed_ips =
            ([Request (list_resources "subnet" "s1")],
             Ok [ {[ "subnet_id" := "id-s1"; "ip_address" := "10.0.0.5" ]};
                  {[ "ip_address" := "10.0.0.6" ]} ])) as Hrun
    by (vm_compute; reflexivity).
  split; [exact Hrun|].
  exact (resolve_fixed_ips_shape Demo.find Demo.client DemoRouter.fixed_ips _ _ Hrun).
Defined.

Lemma set_gateway_plain_witness :
  SetGatewayRouter_run Demo.find DemoRouter.add_gateway_router Demo.client
    {| gs_router := "r1"; gs_external_network := DemoRouter.network_id;
       gs_disable_snat := false; gs_fixed_ip := None |} =
  ([Request (list_resources "router" "r1")] ++ [] ++ [] ++
     [Print stdout ("Set gateway for router " +:+ "r1")],
   Ok VNone).
Proof.
  refine (set_gateway_plain Demo.find DemoRouter.add_gateway_router Demo.client
            "r1" DemoRouter.network_id None
            [Request (list_resources "router" "r1")] [] []
            "id-r1" DemoRouter.network_id VNone _ _ _ _);
    [by left|vm_compute; reflexivity..].
Defined.

Lemma set_gateway_body_witness :
  let parsed_args :=
    {| gs_router := "r1"; gs_external_network := DemoRouter.network_id;
       gs_disable_snat := true; gs_fixed_ip := Some DemoRouter.fixed_ips |} in
  let t1 := [Request (list_resources "router" "r1")] in
  (∃ t3 e,
     SetGatewayRouter_run Demo.find DemoRouter.add_gateway_router Demo.client
       parsed_args = (t1 ++ [] ++ t3, Raise e) ∧
     ∃ specs, gs_fixed_ip parsed_args = Some specs ∧
              resolve_fixed_ips Demo.find Demo.client specs = (t3, Raise e)) ∨
  ∃ t3 body,
    SetGatewayRouter_run Demo.find DemoRouter.add_gateway_router Demo.client
      parsed_args =
      ((t1 ++ [] ++ t3, Ok tt) ;;;
       DemoRouter.add_gateway_router Demo.client "id-r1" (VDict body) ;;;
       emit (Print stdout ("Set gateway for router " +:+ gs_router parsed_args)) ;;;
       ret VNone) ∧
    body !! "network_id" = Some (VStr DemoRouter.network_id) ∧
    body !! "enable_snat" =
      (if gs_disable_snat parsed_args then Some (VBool false) else None) ∧
    (is_Some (body !! "external_fixed_ips") ↔
       ∃ spec specs, gs_fixed_ip parsed_args = Some (spec :: specs)) ∧
    (∀ k, is_Some (body !! k) →
       k ∈ ["network_id"; "enable_snat"; "external_fixed_ips"]).
Proof.
  cbv zeta.
  refine (set_gateway_body Demo.find DemoRouter.add_gateway_router Demo.client
            {| gs_router := "r1"; gs_external_network := DemoRouter.network_id;
               gs_disable_snat := true; gs_fixed_ip := Some DemoRouter.fixed_ips |}
            [Request (list_resources "router" "r1")] []
            "id-r1" DemoRouter.network_id _ _);
    vm_compute; reflexivity.
Defined.

Lemma env_first_defined_witness :
  let environ : gmap string string :=
    {[ "OS_TENANT_NAME" := ""; "OS_PROJECT_NAME" := "demo" ]} in
  env environ ["OS_USERNAME"; "OS_TENANT_NAME"; "OS_PROJECT_NAME"] None
    = VStr "demo" ∧
  env environ ["OS_USERNAME"; "OS_TENANT_NAME"] (Some (VInt 3)) = VInt 3.
Proof.
  cbv zeta. split.
  - refine (proj1 (env_first_defined _ _ None)
              ["OS_USERNAME"; "OS_TENANT_NAME"] "OS_PROJECT_NAME" [] "demo"
              eq_refl _ _ _).
    + apply Forall_cons. split; [by left|].
      apply Forall_cons. split; [by right|]. by apply Forall_nil.
    + vm_compute; reflexivity.
    + discriminate.
  - refine (proj2 (env_first_defined _ _ (Some (VInt 3))) _).
    apply Forall_cons. split; [by left|].
    apply Forall_cons. split; [by right|]. by apply Forall_nil.
Defined.

Lemma main_only_system_exit_escapes_witness :
  (main DemoShell.is_valid_cidr DemoShell.is_NeutronClientException
     (DemoShell.unauthenticated_shell (ClientError 401 "Unauthorized"))
     ["--debug"; "router-gateway-clear"; "myrouter"]).2 = Ok (VInt 1) ∧
  (main DemoShell.is_valid_cidr DemoShell.is_NeutronClientException
     (DemoShell.unauthenticated_shell KeyboardInterrupt)
     ["router-gateway-clear"; "myrouter"]).2 = Ok (VInt 130).
Proof.
  split.
  - refine (proj1 (proj2 (main_only_system_exit_escapes DemoShell.is_valid_cidr
                            DemoShell.is_NeutronClientException _ _))
                  (ClientError 401 "Unauthorized") _ eq_refl).
    vm_compute; reflexivity.
  - refine (proj2 (proj2 (main_only_system_exit_escapes DemoShell.is_valid_cidr
                            DemoShell.is_NeutronClientException _ _)) _).
    vm_compute; reflexivity.
Defined.


Lemma scan_positions_witness :
  let argv := ["--debug"; "router-create"; "x"; "-h"; "help"] in
  let p := {| index := 5; command_pos := 1; help_pos := 3; help_command_pos := 4 |} in
  index p = Z.of_nat (length argv) ∧
  command_pos p = first_pos (is_command COMMAND_V2) argv ∧
  help_pos p = first_pos (is_help_option COMMAND_V2) argv ∧
  help_command_pos p = first_pos (is_help_word COMMAND_V2) argv.
Proof.
  cbv zeta. refine (scan_positions COMMAND_V2 _ _ _). vm_compute; reflexivity.
Defined.


Lemma run_completion_witness :
  NeutronShell_run DemoShell.is_valid_cidr DemoShell.shell
    (["--debug"] ++ "bash-completion" :: ["router-create"; "help"]) =
  ([Print stdout "bash-completion net-list router-create --help"], Ok (VInt 0)).
Proof.
  refine (run_completion DemoShell.is_valid_cidr DemoShell.shell ["--debug"]
            ["router-create"; "help"] _ _ eq_refl).
  left. intros H. apply elem_of_cons in H as [H|H]; [discriminate H|].
  by apply elem_of_nil in H.
Defined.



Lemma run_interactive_witness :
  NeutronShell_run DemoShell.is_valid_cidr DemoShell.shell [] =
  (Authenticate :: (interact DemoShell.shell).1, (interact DemoShell.shell).2).
Proof.
  refine (run_interactive DemoShell.is_valid_cidr DemoShell.shell []
            {| index := 0; command_pos := -1; help_pos := -1; help_command_pos := -1 |}
            [] {| verbose_level := 1 |} _ _ _ eq_refl).
  - reflexivity.
  - reflexivity.
  - vm_compute; reflexivity.
Defined.



Lemma first_valid_cidr_removed_witness :
  let value_specs := ["--name"; "10.0.0.0/24"; "demo"; "10.0.0.0/24"] in
  ∃ pre post,
    value_specs = pre ++ "10.0.0.0/24" :: post ∧
    Forall (λ value, DemoShell.is_valid_cidr value = false) pre ∧
    DemoShell.is_valid_cidr "10.0.0.0/24" = true ∧
    list_remove "10.0.0.0/24" value_specs = pre ++ post.
Proof.
  cbv zeta.
  refine (proj2 (first_valid_cidr_removed DemoShell.is_valid_cidr _) "10.0.0.0/24" _).
  vm_compute; reflexivity.
Defined.
